(** * RandomAnonymizer: a shallow embedding of
      anonymization/modules/speaker_embeddings/anonymization/random_anon.py

    The Python class is embedded as state-passing code over an explicit
    program state: the attributes of the anonymizer object, the log of files
    opened for reading, the standard output, the positions of the two random
    generators (torch's and numpy's) and a heap of Python objects
    (label lists, tensors and [SpeakerEmbeddings] batches).  Exceptions are
    an explicit result.  Floating-point numbers are IEEE-754 values of
    [SpecFloat]: binary32 for tensors, binary64 for Python floats. *)

From Stdlib Require Import ZArith String Ascii Floats.SpecFloat.
From stdpp Require Import base gmap strings list sorting.

Local Open Scope string_scope.
Local Open Scope Z_scope.

(** ** Floating point *)

Module Float.

(** torch's default dtype: IEEE binary32. *)
Definition prec32 : Z := 24.
Definition emax32 : Z := 128.
(** Python floats and numpy doubles: IEEE binary64. *)
Definition prec64 : Z := 53.
Definition emax64 : Z := 1024.

Definition mul32 : spec_float -> spec_float -> spec_float := SFmul prec32 emax32.
Definition add64 : spec_float -> spec_float -> spec_float := SFadd prec64 emax64.
Definition sub64 : spec_float -> spec_float -> spec_float := SFsub prec64 emax64.
Definition mul64 : spec_float -> spec_float -> spec_float := SFmul prec64 emax64.

(** An integer scalar cast to float32 (round to nearest even). *)
Definition of_Z32 (z : Z) : spec_float := binary_normalize prec32 emax32 z 0 false.
(** A Python int converted to a C double. *)
Definition of_Z64 (z : Z) : spec_float := binary_normalize prec64 emax64 z 0 false.
(** A double narrowed to float32, as [torch.tensor] does with Python floats. *)
Definition narrow (x : spec_float) : spec_float :=
  match x with
  | S754_finite s m e => binary_round prec32 emax32 s m e
  | _ => x
  end.

Definition zero32 : spec_float := S754_zero false.

Definition is_zero (x : spec_float) : bool :=
  match x with S754_zero _ => true | _ => false end.
Definition is_nan (x : spec_float) : bool :=
  match x with S754_nan => true | _ => false end.
(** Neither an infinity nor a NaN. *)
Definition is_finite (x : spec_float) : bool :=
  match x with S754_zero _ | S754_finite _ _ _ => true | _ => false end.

End Float.

(** ** Exceptions and the state-and-exception monad *)

Inductive exn :=
| AttributeError (attr : string)
| FileNotFoundError (path : string)
| JSONDecodeError
| ValueError
| KeyError (key : string)
| TypeError
| IndexError
| OverflowError
| RuntimeError (msg : string).

Inductive result (A : Type) :=
| Ok (a : A)
| Raise (e : exn).
Arguments Ok {A} a.
Arguments Raise {A} e.

Definition is_ok {A} (r : result A) : bool :=
  match r with Ok _ => true | Raise _ => false end.

(** ** JSON values, as [json.load] returns them

    A JSON object becomes a Python dict; [JObj] holds its [items()], in
    insertion order. *)

#[local] Set Warnings "-register-all".
Inductive json :=
| JNull
| JBool (b : bool)
| JInt (z : Z)
| JFloat (f : spec_float)
| JStr (s : string)
| JArr (l : list json)
| JObj (items : list (string * json)).

(** A scaling profile: the list of [(v["min"], v["max"])] tuples. *)
Definition profile : Type := list (json * json).

(** ** Python's [int(str)] on text keys (base 10)

    A [str] is held as the UTF-8 text of its code points, the way a string
    literal of this file is (a lone surrogate, which [json.load] makes of an
    unpaired [\ud800] escape, in its three-byte form).  So that every
    string is the text of a [str], a byte that begins no well-formed
    sequence stands for the character of that code.

    CPython's [int] works in two steps.  A [str] with a character outside
    ASCII is first rewritten to ASCII
    ([_PyUnicode_TransformDecimalAndSpaceToASCII]): code points below 127
    stay, a white-space character becomes a space, a decimal digit of the
    Unicode database becomes its ASCII digit, and anything else ends the
    conversion with an error.  [PyLong_FromString] then reads white space
    (of the C locale: the characters 9 to 13 and the space), an optional
    sign, digits with single underscores between them and white space up to
    the end, and refuses more digits than [sys.get_int_max_str_digits()]
    allows.  Every failure is a [ValueError]. *)

Module PyInt.

(** What [int] takes from the running interpreter: the decimal value
    ([Py_UNICODE_TODECIMAL]) and the white-space property
    ([Py_UNICODE_ISSPACE]) of a code point in its Unicode database, and the
    limit [sys.get_int_max_str_digits()]: 4300 unless configured, 0 for no
    limit, as in the interpreters without the limit. *)
Record Interp := {
  unicode_decimal : N -> option N;
  unicode_space : N -> bool;
  int_max_str_digits : Z;
}.

(** *** UTF-8 text to code points *)

Definition continuation (c : ascii) : option N :=
  let n := N_of_ascii c in
  if ((128 <=? n) && (n <? 192))%N then Some (n - 128)%N else None.

Fixpoint decode (bs : list ascii) : list N :=
  match bs with
  | [] => []
  | b :: bs1 =>
      let n := N_of_ascii b in
      if (n <? 192)%N then n :: decode bs1
      else if (n <? 224)%N then
        match bs1 with
        | c1 :: bs2 =>
            match continuation c1 with
            | Some x1 =>
                let cp := ((n - 192) * 64 + x1)%N in
                if (128 <=? cp)%N then cp :: decode bs2 else n :: decode bs1
            | None => n :: decode bs1
            end
        | _ => n :: decode bs1
        end
      else if (n <? 240)%N then
        match bs1 with
        | c1 :: c2 :: bs3 =>
            match continuation c1, continuation c2 with
            | Some x1, Some x2 =>
                let cp := (((n - 224) * 64 + x1) * 64 + x2)%N in
                if (2048 <=? cp)%N then cp :: decode bs3 else n :: decode bs1
            | _, _ => n :: decode bs1
            end
        | _ => n :: decode bs1
        end
      else if (n <? 248)%N then
        match bs1 with
        | c1 :: c2 :: c3 :: bs4 =>
            match continuation c1, continuation c2, continuation c3 with
            | Some x1, Some x2, Some x3 =>
                let cp := ((((n - 240) * 64 + x1) * 64 + x2) * 64 + x3)%N in
                if ((65536 <=? cp) && (cp <=? 1114111))%N
                then cp :: decode bs4 else n :: decode bs1
            | _, _, _ => n :: decode bs1
            end
        | _ => n :: decode bs1
        end
      else n :: decode bs1
  end.

(** *** [PyLong_FromString] on ASCII characters *)

(** [Py_ISSPACE] *)
Definition is_space (c : N) : bool :=
  ((9 <=? c) && (c <=? 13) || (c =? 32))%N.

Definition digit (c : N) : option Z :=
  if ((48 <=? c) && (c <=? 57))%N then Some (Z.of_N c - 48) else None.

Fixpoint lstrip (cs : list N) : list N :=
  match cs with
  | c :: cs' => if is_space c then lstrip cs' else cs
  | [] => []
  end.

Definition strip (cs : list N) : list N :=
  rev (lstrip (rev (lstrip cs))).

(** Digits, with single underscores allowed between two digits.
    [after_digit] tells whether the previous character was a digit. *)
Fixpoint digits (acc : Z) (after_digit : bool) (cs : list N) : option Z :=
  match cs with
  | [] => if after_digit then Some acc else None
  | c :: cs' =>
      match digit c with
      | Some d => digits (acc * 10 + d) true cs'
      | None =>
          if ((c =? 95)%N && after_digit)%bool
          then digits acc false cs'
          else None
      end
  end.

(** The number of digits, underscores left out. *)
Fixpoint count_digits (cs : list N) : Z :=
  match cs with
  | [] => 0
  | c :: cs' =>
      (match digit c with Some _ => 1 | None => 0 end) + count_digits cs'
  end.

Section Interpreter.
Context (I : Interp).

(** The limit is looked at for more than 640 digits only
    ([_PY_LONG_MAX_STR_DIGITS_THRESHOLD]). *)
Definition too_long (n : Z) : bool :=
  (640 <? n) && (0 <? int_max_str_digits I) && (int_max_str_digits I <? n).

Definition unsigned (cs : list N) : option Z :=
  match digits 0 false cs with
  | Some z => if too_long (count_digits cs) then None else Some z
  | None => None
  end.

Definition from_string (cs : list N) : option Z :=
  match strip cs with
  | 43%N :: cs' => unsigned cs'
  | 45%N :: cs' => Z.opp <$> unsigned cs'
  | cs' => unsigned cs'
  end.

(** *** The rewriting to ASCII *)

(** The ASCII character standing for a code point; [None] where the
    conversion ends with an error. *)
Definition to_ascii (cp : N) : option N :=
  if (cp <? 127)%N then Some cp
  else if unicode_space I cp then Some 32%N
  else
    match unicode_decimal I cp with
    | Some d => if (d <? 10)%N then Some (48 + d)%N else None
    | None => None
    end.

Fixpoint transform (cps : list N) : option (list N) :=
  match cps with
  | [] => Some []
  | cp :: cps' =>
      match to_ascii cp with
      | Some c => cons c <$> transform cps'
      | None => None
      end
  end.

(** An ASCII [str] is read as it is. *)
Definition ascii_text (cps : list N) : option (list N) :=
  if forallb (fun cp => (cp <? 128)%N) cps then Some cps else transform cps.

Definition int (s : string) : option Z :=
  match ascii_text (decode (list_ascii_of_string s)) with
  | Some cs => from_string cs
  | None => None
  end.

End Interpreter.
End PyInt.

(** ** Python's [sorted(xs, key=...)]: a stable sort on precomputed keys *)

Module PySorted.
Section Keyed.
Context {A : Type}.

Fixpoint insert (x : Z * A) (l : list (Z * A)) : list (Z * A) :=
  match l with
  | [] => [x]
  | y :: l' => if x.1 <=? y.1 then x :: l else y :: insert x l'
  end.

Fixpoint sort (l : list (Z * A)) : list (Z * A) :=
  match l with
  | [] => []
  | x :: l' => insert x (sort l')
  end.

(** The key function is called once on every element, in order; the
    first failure aborts the sort. *)
Fixpoint decorate (key : A -> option Z) (l : list A) : option (list (Z * A)) :=
  match l with
  | [] => Some []
  | x :: l' =>
      match key x with
      | Some k =>
          match decorate key l' with
          | Some d => Some ((k, x) :: d)
          | None => None
          end
      | None => None
      end
  end.

Definition sorted (key : A -> option Z) (l : list A) : option (list A) :=
  match decorate key l with
  | Some d => Some (map snd (sort d))
  | None => None
  end.
End Keyed.
End PySorted.

(** ** Devices, tensors and heap objects *)

Inductive torch_device :=
| CPU
| CUDA (index : nat).

#[global] Instance torch_device_eq_dec : EqDecision torch_device.
Proof. solve_decision. Defined.

Abbreviation addr := nat.

(** float32 tensors of one and of two dimensions. *)
Inductive tensor :=
| T1 (d : torch_device) (xs : list spec_float)
| T2 (d : torch_device) (rows : list (list spec_float)).

(** A tensor value held by a Python variable: a tensor object, or the view
    [t[i]] of row [i] of the two-dimensional tensor at [base]. *)
Inductive tref :=
| Own (a : addr)
| RowView (base : addr) (i : nat).

(** Modelled from the spec: the [SpeakerEmbeddings] batch class (section 6,
    EmbeddingBatch interface) is not part of the source file. It has a
    constructor taking [vec_type], [device] and [emb_level], a setter
    [set_vectors] taking identifiers, stacked vectors, genders and speakers,
    accessors [genders] and [original_speakers], and iteration yielding
    (identifier, vector) pairs in identifier order.  [se_emb_level] is the
    [emb_level] constructor argument, [None] when the caller leaves it to
    the class default.  Metadata and vectors are held by reference; [None]
    is Python's [None] before [set_vectors]. *)
Record SpeakerEmbeddings := {
  se_vec_type : string;
  se_emb_level : option string;
  se_device : torch_device;
  se_identifiers : list string;
  se_vectors : option addr;
  se_genders : option addr;
  se_original_speakers : option addr;
}.

Inductive obj :=
| OList (labels : list string)
| OTensor (t : tensor)
| OBatch (b : SpeakerEmbeddings).

(** ** The anonymizer object and the program state *)

(** Attributes of a [RandomAnonymizer] instance; [None] is an attribute that
    was never assigned.  [stats_per_dim_path] and [_scaling_ranges] hold
    Python values that may themselves be [None]. *)
Record RandomAnonymizer := {
  vec_type : option string;
  device : option torch_device;
  model_name : option string;
  stats_per_dim_path : option (option string);
  _scaling_ranges : option (option profile);
}.

(** The object as [__init__] receives it. *)
Definition blank : RandomAnonymizer :=
  {| vec_type := None; device := None; model_name := None;
     stats_per_dim_path := None; _scaling_ranges := None |}.

(** What a file holds: text that [json.load] rejects, or the text of a
    JSON value. *)
Inductive file :=
| NotJSON
| JSONText (j : json).

(** The environment the program runs in, never changed by it: the files,
    the number of CUDA devices, the raw outputs of torch's CPU generator
    (32-bit words) and of numpy's global generator (53-bit integers [k],
    standing for the double [k / 2^53]), and what [int] takes from the
    interpreter. *)
Record Env := {
  fs : gmap string file;
  cuda_count : nat;
  interpreter : PyInt.Interp;
  torch_raw : nat -> Z;
  np_raw : nat -> Z;
}.

Record State := {
  self : RandomAnonymizer;
  reads : list string;      (* paths opened for reading, latest first *)
  stdout : list string;     (* lines printed, latest first *)
  torch_pos : nat;          (* words consumed from torch's generator *)
  np_pos : nat;             (* doubles consumed from numpy's generator *)
  heap : gmap addr obj;
  next_addr : addr;         (* addresses from here on are unallocated *)
}.

Definition with_self (s : RandomAnonymizer) (st : State) : State :=
  {| self := s; reads := reads st; stdout := stdout st; torch_pos := torch_pos st;
     np_pos := np_pos st; heap := heap st; next_addr := next_addr st |}.
Definition with_reads (r : list string) (st : State) : State :=
  {| self := self st; reads := r; stdout := stdout st; torch_pos := torch_pos st;
     np_pos := np_pos st; heap := heap st; next_addr := next_addr st |}.
Definition with_stdout (o : list string) (st : State) : State :=
  {| self := self st; reads := reads st; stdout := o; torch_pos := torch_pos st;
     np_pos := np_pos st; heap := heap st; next_addr := next_addr st |}.
Definition with_torch_pos (n : nat) (st : State) : State :=
  {| self := self st; reads := reads st; stdout := stdout st; torch_pos := n;
     np_pos := np_pos st; heap := heap st; next_addr := next_addr st |}.
Definition with_np_pos (n : nat) (st : State) : State :=
  {| self := self st; reads := reads st; stdout := stdout st; torch_pos := torch_pos st;
     np_pos := n; heap := heap st; next_addr := next_addr st |}.
Definition with_heap (h : gmap addr obj) (n : addr) (st : State) : State :=
  {| self := self st; reads := reads st; stdout := stdout st; torch_pos := torch_pos st;
     np_pos := np_pos st; heap := h; next_addr := n |}.

Definition M (A : Type) : Type := State -> result A * State.

Definition ret {A} (a : A) : M A := fun st => (Ok a, st).
Definition raise {A} (e : exn) : M A := fun st => (Raise e, st).
Definition bind {A B} (m : M A) (k : A -> M B) : M B :=
  fun st =>
    match m st with
    | (Ok a, st') => k a st'
    | (Raise e, st') => (Raise e, st')
    end.
Definition get : M State := fun st => (Ok st, st).
Definition modify (f : State -> State) : M unit := fun st => (Ok tt, f st).
Definition lift {A} (r : result A) : M A := fun st => (r, st).
Definition lift_opt {A} (e : exn) (o : option A) : M A :=
  match o with Some a => ret a | None => raise e end.

Notation "'let*' x ':=' m 'in' k" := (bind m (fun x => k))
  (at level 10, x pattern, m at level 100, k at level 200).
Notation "m1 ';;' m2" := (bind m1 (fun _ => m2))
  (at level 100, m2 at level 200, right associativity).

Definition getattr {A} (name : string) (field : RandomAnonymizer -> option A) : M A :=
  let* st := get in lift_opt (AttributeError name) (field (self st)).
Definition setattr (f : RandomAnonymizer -> RandomAnonymizer) : M unit :=
  modify (fun st => with_self (f (self st)) st).

(** [for x in xs: ys.append(body(x))] *)
Fixpoint for_each {A B} (body : A -> M B) (xs : list A) : M (list B) :=
  match xs with
  | [] => ret []
  | x :: xs' =>
      let* y := body x in
      let* ys := for_each body xs' in
      ret (y :: ys)
  end.

(** ** The program *)

Section Program.
Context (E : Env).

(** *** Files and JSON *)

(** [open(path)]: a missing file raises; a successful open is logged. *)
Definition open (path : string) : M file :=
  match fs E !! path with
  | Some f => modify (fun st => with_reads (path :: reads st) st);; ret f
  | None => raise (FileNotFoundError path)
  end.

Definition json_load (f : file) : M json :=
  match f with
  | JSONText j => ret j
  | NotJSON => raise JSONDecodeError
  end.

(** [d.items()] *)
Definition dict_items (j : json) : M (list (string * json)) :=
  match j with
  | JObj items => ret items
  | _ => raise (AttributeError "items")
  end.

Fixpoint assoc (k : string) (items : list (string * json)) : option json :=
  match items with
  | [] => None
  | (k', v) :: items' => if String.eqb k k' then Some v else assoc k items'
  end.

(** [v[k]] for a text key [k] *)
Definition getitem (v : json) (k : string) : result json :=
  match v with
  | JObj items =>
      match assoc k items with
      | Some x => Ok x
      | None => Raise (KeyError k)
      end
  | _ => Raise TypeError
  end.

(** [(v["min"], v["max"])] for an item [(k, v)] *)
Definition range_of (kv : string * json) : result (json * json) :=
  match getitem kv.2 "min" with
  | Ok lo =>
      match getitem kv.2 "max" with
      | Ok hi => Ok (lo, hi)
      | Raise e => Raise e
      end
  | Raise e => Raise e
  end.

Definition _load_scaling_ranges (stats_per_dim_path : option string) : M profile :=
  let stats_per_dim_path :=
    match stats_per_dim_path with
    | None => "stats_per_dim.json"
    | Some p => p
    end in
  let* f := open stats_per_dim_path in
  let* dim_ranges := json_load f in
  let* items := dict_items dim_ranges in
  let* ordered :=
    lift_opt ValueError (PySorted.sorted (fun x => PyInt.int (interpreter E) x.1) items) in
  for_each (fun kv => lift (range_of kv)) ordered.

(** *** Construction and the lazy property *)

(** Modelled from the spec: the base initializer ([BaseAnonymizer], not in
    the source file) records the embedding family and the compute device,
    which the methods read back as [self.vec_type] and [self.device]. *)
Definition BaseAnonymizer_init (vec_type' : string) (device' : torch_device) : M unit :=
  setattr (fun s =>
    {| vec_type := Some vec_type'; device := Some device';
       model_name := model_name s;
       stats_per_dim_path := stats_per_dim_path s;
       _scaling_ranges := _scaling_ranges s |}).

Definition __init__ (device' : torch_device) (vec_type' : string)
    (model_name' : option string) (in_scale : bool)
    (stats_per_dim_path' : option string) : M unit :=
  BaseAnonymizer_init vec_type' device';;
  setattr (fun s =>
    {| vec_type := vec_type s; device := device s;
       model_name :=
         Some (match model_name' with
               | Some EmptyString => "random_" ++ vec_type'
               | Some n => n
               | None => "random_" ++ vec_type'
               end);
       stats_per_dim_path := stats_per_dim_path s;
       _scaling_ranges := _scaling_ranges s |});;
  if in_scale then
    setattr (fun s =>
      {| vec_type := vec_type s; device := device s; model_name := model_name s;
         stats_per_dim_path := Some stats_per_dim_path';
         _scaling_ranges := _scaling_ranges s |})
  else
    setattr (fun s =>
      {| vec_type := vec_type s; device := device s; model_name := model_name s;
         stats_per_dim_path := Some None;
         _scaling_ranges := _scaling_ranges s |});;
    setattr (fun s =>
      {| vec_type := vec_type s; device := device s; model_name := model_name s;
         stats_per_dim_path := stats_per_dim_path s;
         _scaling_ranges := Some None |}).

(** [RandomAnonymizer(device, vec_type, model_name, in_scale, path)]:
    a fresh object, then [__init__]. *)
Definition RandomAnonymizer_new (device' : torch_device) (vec_type' : string)
    (model_name' : option string) (in_scale : bool)
    (stats_per_dim_path' : option string) : M unit :=
  modify (with_self blank);;
  __init__ device' vec_type' model_name' in_scale stats_per_dim_path'.

(** The [scaling_ranges] property. *)
Definition scaling_ranges : M (option profile) :=
  let* pending := getattr "stats_per_dim_path" stats_per_dim_path in
  match pending with
  | Some path =>
      let* loaded := _load_scaling_ranges (Some path) in
      setattr (fun s =>
        {| vec_type := vec_type s; device := device s; model_name := model_name s;
           stats_per_dim_path := stats_per_dim_path s;
           _scaling_ranges := Some (Some loaded) |});;
      setattr (fun s =>
        {| vec_type := vec_type s; device := device s; model_name := model_name s;
           stats_per_dim_path := Some None;
           _scaling_ranges := _scaling_ranges s |})
  | None => ret tt
  end;;
  getattr "_scaling_ranges" _scaling_ranges.

(** *** Heap and tensor operations *)

Definition alloc (o : obj) : M addr :=
  let* st := get in
  modify (with_heap (<[next_addr st := o]> (heap st)) (S (next_addr st)));;
  ret (next_addr st).

Definition load (a : addr) : M obj :=
  let* st := get in
  lift_opt (RuntimeError "dangling reference") (heap st !! a).

Definition store (a : addr) (o : obj) : M unit :=
  modify (fun st => with_heap (<[a := o]> (heap st)) (next_addr st) st).

(** The device and the elements of a one-dimensional tensor value. *)
Definition read_vec (v : tref) : M (torch_device * list spec_float) :=
  match v with
  | Own a =>
      let* o := load a in
      match o with
      | OTensor (T1 d xs) => ret (d, xs)
      | _ => raise TypeError
      end
  | RowView base i =>
      let* o := load base in
      match o with
      | OTensor (T2 d rows) => lift_opt IndexError (pair d <$> rows !! i)
      | _ => raise TypeError
      end
  end.

(** Overwrite the elements of a tensor value in place; through a view the
    write lands in the base tensor. *)
Definition write_vec (v : tref) (ys : list spec_float) : M unit :=
  match v with
  | Own a =>
      let* o := load a in
      match o with
      | OTensor (T1 d _) => store a (OTensor (T1 d ys))
      | _ => raise TypeError
      end
  | RowView base i =>
      let* o := load base in
      match o with
      | OTensor (T2 d rows) => store base (OTensor (T2 d (<[i := ys]> rows)))
      | _ => raise TypeError
      end
  end.

(** [vector.shape[0]] *)
Definition shape0 (v : tref) : M nat :=
  let* dx := read_vec v in ret (length dx.2).

(** [torch.zeros(n)]: a new float32 tensor on the CPU. *)
Definition torch_zeros (n : nat) : M tref :=
  let* a := alloc (OTensor (T1 CPU (replicate n Float.zero32))) in ret (Own a).

(** [t.float()]: the tensor itself, as it is float32 already. *)
Definition float (t : tref) : M tref := ret t.

(** torch's [uniform_int_from_to]: a raw word reduced to [range] values
    starting at [base]. *)
Definition uniform_int_from_to (raw range base : Z) : Z := raw mod range + base.

Definition next_torch_word : M Z :=
  let* st := get in
  modify (with_torch_pos (S (torch_pos st)));;
  ret (torch_raw E (torch_pos st) mod 2 ^ 32).

Definition random_elem (from to : Z) (_ : spec_float) : M spec_float :=
  let* raw := next_torch_word in
  ret (Float.of_Z32 (uniform_int_from_to raw (to - from) from)).

(** [t.random_(from, to)]: every element redrawn in place from the CPU
    generator; returns [t]. *)
Definition random_ (t : tref) (from to : Z) : M tref :=
  let* dx := read_vec t in
  let* ys := for_each (random_elem from to) dx.2 in
  write_vec t ys;;
  ret t.

Definition available (d : torch_device) : bool :=
  match d with
  | CPU => true
  | CUDA i => (i <? cuda_count E)%nat
  end.

(** [t.to(device)]: [t] itself when it is on the device already, else a
    copy on the device. *)
Definition to (t : tref) (dev : torch_device) : M tref :=
  let* dx := read_vec t in
  if decide (dx.1 = dev) then ret t
  else if available dev then
    let* a := alloc (OTensor (T1 dev dx.2)) in ret (Own a)
  else raise (RuntimeError "device unavailable").

(** [a * b] on one-dimensional tensors of one size (the only use here:
    the mask is built with the vector's own size): a new tensor. *)
Definition mul (a b : tref) : M tref :=
  let* x := read_vec a in
  let* y := read_vec b in
  if decide (x.1 = y.1) then
    if decide (length x.2 = length y.2) then
      let* r := alloc (OTensor (T1 x.1 (zip_with Float.mul32 x.2 y.2))) in
      ret (Own r)
    else raise (RuntimeError "size mismatch")
  else raise (RuntimeError "device mismatch").

(** [torch.tensor(xs)] on a list of Python floats: float32, on the CPU. *)
Definition torch_tensor (xs : list spec_float) : M tref :=
  let* a := alloc (OTensor (T1 CPU (map Float.narrow xs))) in ret (Own a).

Definition same_shape (d : torch_device) (n : nat) (v : torch_device * list spec_float) : bool :=
  bool_decide (v.1 = d) && (length v.2 =? n)%nat.

(** [torch.stack(ts, dim=0)] *)
Definition torch_stack (ts : list tref) : M addr :=
  let* vs := for_each read_vec ts in
  match vs with
  | [] => raise (RuntimeError "stack expects a non-empty TensorList")
  | v :: rest =>
      if forallb (same_shape v.1 (length v.2)) rest
      then alloc (OTensor (T2 v.1 (map snd vs)))
      else raise (RuntimeError "stack expects each tensor to be equal size")
  end.

(** *** numpy's [random.uniform] *)

(** A Python number as a C double: the scalar bounds [np.random.uniform]
    samples between.  A bound that is no number is refused here; what numpy
    makes of a text or a list bound (parsing, broadcasting) is not
    embedded, and the statements about samples are about numbers
    ([samplable]). *)
Definition as_double (j : json) : result spec_float :=
  match j with
  | JFloat f => Ok f
  | JInt z =>
      if Float.is_finite (Float.of_Z64 z) then Ok (Float.of_Z64 z)
      else Raise OverflowError
  | JBool b => Ok (Float.of_Z64 (if b then 1 else 0))
  | _ => Raise TypeError
  end.

Definition next_np_double : M spec_float :=
  let* st := get in
  modify (with_np_pos (S (np_pos st)));;
  ret (binary_normalize Float.prec64 Float.emax64
         (np_raw E (np_pos st) mod 2 ^ 53) (-53) false).

(** [np.random.uniform(low, high)] on scalars: [low + (high - low) * u]
    with [u] the next double of [[0, 1)]. *)
Definition np_random_uniform (dim_range : json * json) : M spec_float :=
  let* low := lift (as_double dim_range.1) in
  let* high := lift (as_double dim_range.2) in
  let range := Float.sub64 high low in
  if Float.is_finite range then
    let* u := next_np_double in
    ret (Float.add64 low (Float.mul64 range u))
  else raise OverflowError.

(** *** The batch class

    Modelled from the spec: the operations of [SpeakerEmbeddings] that the
    anonymizer calls (section 6): the constructor, [set_vectors], the two
    metadata accessors and iteration.  Iteration needs the stacked vectors
    and a row for every identifier. *)

Definition load_batch (b : addr) : M SpeakerEmbeddings :=
  let* o := load b in
  match o with
  | OBatch se => ret se
  | _ => raise TypeError
  end.

Definition SpeakerEmbeddings_new (vec_type' : string) (device' : torch_device)
    (emb_level : option string) : M addr :=
  alloc (OBatch {| se_vec_type := vec_type'; se_emb_level := emb_level;
                   se_device := device'; se_identifiers := [];
                   se_vectors := None; se_genders := None;
                   se_original_speakers := None |}).

Definition set_vectors (b : addr) (identifiers : list string) (vectors : addr)
    (genders speakers : option addr) : M unit :=
  let* se := load_batch b in
  store b (OBatch {| se_vec_type := se_vec_type se;
                     se_emb_level := se_emb_level se;
                     se_device := se_device se;
                     se_identifiers := identifiers;
                     se_vectors := Some vectors;
                     se_genders := genders;
                     se_original_speakers := speakers |}).

Definition original_speakers (b : addr) : M (option addr) :=
  let* se := load_batch b in ret (se_original_speakers se).

Definition genders (b : addr) : M (option addr) :=
  let* se := load_batch b in ret (se_genders se).

(** [for identifier, vector in batch]: the identifiers in order, each with
    the view of its row of the stacked vectors. *)
Definition iterate (b : addr) : M (list (string * tref)) :=
  let* se := load_batch b in
  let* v := lift_opt TypeError (se_vectors se) in
  let* o := load v in
  match o with
  | OTensor (T2 _ rows) =>
      if (length (se_identifiers se) <=? length rows)%nat
      then ret (imap (fun i identifier => (identifier, RowView v i))
                     (se_identifiers se))
      else raise IndexError
  | _ => raise TypeError
  end.

(** *** Anonymization *)

Definition print (line : string) : M unit :=
  modify (fun st => with_stdout (line :: stdout st) st).

(** [bool(x)] on [None] or a list. *)
Definition truthy (x : option profile) : bool :=
  match x with
  | Some (_ :: _) => true
  | _ => false
  end.

Definition in_scale_vector (item : string * tref) : M (string * tref) :=
  let* ranges := scaling_ranges in
  let* ranges := lift_opt TypeError ranges in
  let* samples := for_each np_random_uniform ranges in
  let* t := torch_tensor samples in
  let* dev := getattr "device" device in
  let* anon_vec := to t dev in
  ret (item.1, anon_vec).

Definition _anonymize_data_in_scale (speaker_embeddings : addr) : M addr :=
  let* speakers := original_speakers speaker_embeddings in
  let* genders := genders speaker_embeddings in
  let* items := iterate speaker_embeddings in
  let* anon := for_each in_scale_vector items in
  let identifiers := anon.*1 in
  let anon_vectors := anon.*2 in
  let* vt := getattr "vec_type" vec_type in
  let* dev := getattr "device" device in
  let* anon_embeddings := SpeakerEmbeddings_new vt dev None in
  let* stacked := torch_stack anon_vectors in
  set_vectors anon_embeddings identifiers stacked genders speakers;;
  ret anon_embeddings.

Definition masked_vector (item : string * tref) : M (string * tref) :=
  let* n := shape0 item.2 in
  let* z := torch_zeros n in
  let* z := float z in
  let* z := random_ z (-40) 40 in
  let* dev := getattr "device" device in
  let* mask := to z dev in
  let* anon_vec := mul item.2 mask in
  ret (item.1, anon_vec).

Definition anonymize_embeddings (speaker_embeddings : addr) (emb_level : string)
    : M addr :=
  let* ranges := scaling_ranges in
  if truthy ranges then
    print "Anonymize vectors in scale!";;
    _anonymize_data_in_scale speaker_embeddings
  else
    let* speakers := original_speakers speaker_embeddings in
    let* genders := genders speaker_embeddings in
    let* items := iterate speaker_embeddings in
    let* anon := for_each masked_vector items in
    let identifiers := anon.*1 in
    let anon_vectors := anon.*2 in
    let* vt := getattr "vec_type" vec_type in
    let* dev := getattr "device" device in
    let* anon_embeddings := SpeakerEmbeddings_new vt dev (Some emb_level) in
    let* stacked := torch_stack anon_vectors in
    set_vectors anon_embeddings identifiers stacked genders speakers;;
    ret anon_embeddings.

End Program.

(** The attributes once a profile has been loaded and the pending path
    cleared. *)
Definition loaded (prof : profile) (s : RandomAnonymizer) : RandomAnonymizer :=
  {| vec_type := vec_type s; device := device s; model_name := model_name s;
     stats_per_dim_path := Some None;
     _scaling_ranges := Some (Some prof) |}.

(** ** Concrete runs *)

Module Demo.

Definition stats : json :=
  JObj [("10", JObj [("min", JInt 1); ("max", JInt 2)]);
        ("2", JObj [("min", JInt 3); ("max", JInt 4)])].

(** The decimal digits of the Unicode database of CPython 3.11
    (Unicode 14.0.0): the code point of each digit zero, followed by its
    digits one to nine. *)
Definition decimal_zeros : list N :=
  [48; 1632; 1776; 1984; 2406; 2534; 2662; 2790; 2918; 3046; 3174; 3302;
   3430; 3558; 3664; 3792; 3872; 4160; 4240; 6112; 6160; 6470; 6608; 6784;
   6800; 6992; 7088; 7232; 7248; 42528; 43216; 43264; 43472; 43504; 43600;
   44016; 65296; 66720; 68912; 69734; 69872; 69942; 70096; 70384; 70736;
   70864; 71248; 71360; 71472; 71904; 72016; 72784; 73040; 73120; 92768;
   92864; 93008; 120782; 120792; 120802; 120812; 120822; 123200; 123632;
   125264; 130032]%N.

(** Its white-space characters from code point 127 on. *)
Definition spaces : list N :=
  [133; 160; 5760; 8192; 8193; 8194; 8195; 8196; 8197; 8198; 8199; 8200;
   8201; 8202; 8232; 8233; 8239; 8287; 12288]%N.

(** CPython 3.11 with its default digit limit. *)
Definition cpython : PyInt.Interp :=
  {| PyInt.unicode_decimal := fun cp =>
       match List.find (fun z => (z <=? cp) && (cp <? z + 10))%N decimal_zeros with
       | Some z => Some (cp - z)%N
       | None => None
       end;
     PyInt.unicode_space := fun cp => existsb (N.eqb cp) spaces;
     PyInt.int_max_str_digits := 4300 |}.

Definition env : Env :=
  {| fs := {[ "stats.json" := JSONText stats ]};
     cuda_count := 0;
     interpreter := cpython;
     torch_raw := fun i => Z.of_nat i * 7 + 40;
     np_raw := fun i => Z.of_nat i * 2 ^ 50 |}.

(** The same statistics under the default file name. *)
Definition env_default : Env :=
  {| fs := {[ "stats_per_dim.json" := JSONText stats ]};
     cuda_count := 0;
     interpreter := cpython;
     torch_raw := fun i => Z.of_nat i * 7 + 40;
     np_raw := fun i => Z.of_nat i * 2 ^ 50 |}.

(** The same files on a machine with one CUDA device. *)
Definition env_gpu : Env :=
  {| fs := {[ "stats.json" := JSONText stats ]};
     cuda_count := 1;
     interpreter := cpython;
     torch_raw := fun i => Z.of_nat i * 7 + 40;
     np_raw := fun i => Z.of_nat i * 2 ^ 50 |}.

(** The [str] with the UTF-8 text [bytes]. *)
Definition text (bytes : list nat) : string :=
  string_of_list_ascii (ascii_of_nat <$> bytes).

Definition f (z : Z) : spec_float := Float.of_Z32 z.

Definition batch : SpeakerEmbeddings :=
  {| se_vec_type := "xvector"; se_emb_level := Some "spk"; se_device := CPU;
     se_identifiers := ["utt1"; "utt2"];
     se_vectors := Some 2%nat;
     se_genders := Some 0%nat;
     se_original_speakers := Some 1%nat |}.

(** A heap with a batch of two identifiers at address 3, its stacked
    vectors at 2 and its metadata lists at 0 and 1; no anonymizer
    constructed yet. *)
Definition state_with (rows : list (list spec_float)) : State :=
  {| self := blank; reads := []; stdout := []; torch_pos := 0%nat; np_pos := 0%nat;
     heap := {[ 0%nat := OList ["F"; "M"];
                1%nat := OList ["spk1"; "spk2"];
                2%nat := OTensor (T2 CPU rows);
                3%nat := OBatch batch ]};
     next_addr := 4%nat |}.

(** Three-dimensional vectors. *)
Definition rows : list (list spec_float) :=
  [[f 1; f 2; f 3]; [f (-1); f 0; f 5]].
Definition st0 : State := state_with rows.

(** The same batch with an infinite first coordinate. *)
Definition rows_inf : list (list spec_float) :=
  [[S754_infinity false; f 2; f 3]; [f (-1); f 0; f 5]].

(** An uncalibrated anonymizer over each batch, built with
    [RandomAnonymizer(device="cpu")] ... *)
Definition st_mask : State :=
  (RandomAnonymizer_new CPU "xvector" None false None st0).2.
Definition st_inf : State :=
  (RandomAnonymizer_new CPU "xvector" None false None (state_with rows_inf)).2.
(** ... and a calibrated one, with
    [in_scale=True, stats_per_dim_path="stats.json"]. *)
Definition st_cal : State :=
  (RandomAnonymizer_new CPU "xvector" None true (Some "stats.json") st0).2.

End Demo.

(** ** Vocabulary of the statements *)

(** The order of the decorated items inside [sorted]. *)
Definition fst_le {A} (a b : Z * A) : Prop := a.1 <= b.1.

(** The order [sorted] establishes: by numeric key. *)
Definition key_le {A} (key : A -> option Z) (a b : A) : Prop :=
  match key a, key b with
  | Some x, Some y => x <= y
  | _, _ => False
  end.

Definition numeric_le (E : Env) : string * json -> string * json -> Prop :=
  key_le (fun x => PyInt.int (interpreter E) x.1).

(** An entry the loader accepts: a numeric key and an object with [min]
    and [max]. *)
Definition well_formed_entry (E : Env) (kv : string * json) : Prop :=
  is_Some (PyInt.int (interpreter E) kv.1) /\ is_ok (range_of kv) = true.

(** Every allocated object sits below the allocation pointer. *)
Definition heap_wf (st : State) : Prop :=
  forall a o, heap st !! a = Some o -> (a < next_addr st)%nat.

(** [st'] still holds, unchanged, every object of [st] below address [n]. *)
Definition preserves (n : addr) (st st' : State) : Prop :=
  heap_wf st'
  /\ (next_addr st <= next_addr st')%nat
  /\ forall a, (a < n)%nat -> heap st' !! a = heap st !! a.

(** [m] writes only at addresses from [n] on, and its results satisfy [Q]. *)
Definition framed {A} (n : addr) (Q : A -> Prop) (m : M A) : Prop :=
  forall st, heap_wf st -> (n <= next_addr st)%nat ->
    preserves n st (m st).2 /\ forall x, (m st).1 = Ok x -> Q x.

(** [m] does not touch the heap at all. *)
Definition heap_same {A} (m : M A) : Prop :=
  forall st, heap (m st).2 = heap st /\ next_addr (m st).2 = next_addr st.

(** The tensor value [t] lives in an object allocated at [n] or later. *)
Definition fresh_ref (n : addr) (t : tref) : Prop :=
  match t with
  | Own a => (n <= a)%nat
  | RowView base _ => (n <= base)%nat
  end.

(** The tensor value [t] is on device [d] and holds the elements [xs]. *)
Definition vec_at (st : State) (t : tref) (d : torch_device) (xs : list spec_float) : Prop :=
  match t with
  | Own a => heap st !! a = Some (OTensor (T1 d xs))
  | RowView base i =>
      exists rows, heap st !! base = Some (OTensor (T2 d rows)) /\ rows !! i = Some xs
  end.

(** The mask value made from the [i]-th word of torch's generator. *)
Definition mask_value (E : Env) (i : nat) : Z :=
  uniform_int_from_to (torch_raw E i mod 2 ^ 32) (40 - -40) (-40).

(** The masks of one vector of [n] dimensions, drawn from position [pos]. *)
Definition masks (E : Env) (pos n : nat) : list Z :=
  map (mask_value E) (seq pos n).

Definition apply_mask (row : list spec_float) (mask : list Z) : list spec_float :=
  zip_with Float.mul32 row (map Float.of_Z32 mask).

(** The masks of a whole batch, vector after vector. *)
Fixpoint batch_masks (E : Env) (pos : nat) (rows : list (list spec_float))
    : list (list Z) :=
  match rows with
  | [] => []
  | row :: rows' =>
      masks E pos (length row) :: batch_masks E (pos + length row) rows'
  end.

(** The vectors of a batch, each multiplied by its masks, the first mask
    drawn at generator position [pos]. *)
Definition masked_rows (E : Env) (pos : nat) (rows : list (list spec_float))
    : list (list spec_float) :=
  zip_with apply_mask rows (batch_masks E pos rows).

(** The batch object the shared tail of both paths leaves on the heap. *)
Definition output_batch (vt : string) (dev : torch_device) (lvl : option string)
    (ids : list string) (vectors : addr) (g s : option addr) : SpeakerEmbeddings :=
  {| se_vec_type := vt; se_emb_level := lvl; se_device := dev;
     se_identifiers := ids; se_vectors := Some vectors;
     se_genders := g; se_original_speakers := s |}.

(** A batch as the spec's data model has it: the batch object at [b] holds
    identifiers and a stacked tensor of as many rows, all of dimension [D],
    on device [d]; and there is at least one identifier. *)
Record valid_batch (st : State) (b : addr) (se : SpeakerEmbeddings)
    (d : torch_device) (rows : list (list spec_float)) (D : nat) : Prop := {
  vb_batch : heap st !! b = Some (OBatch se);
  vb_vectors : exists v, se_vectors se = Some v
                         /\ heap st !! v = Some (OTensor (T2 d rows));
  vb_aligned : length rows = length (se_identifiers se);
  vb_nonempty : se_identifiers se <> [];
  vb_uniform : Forall (fun row => length row = D) rows;
}.

(** The masking path is taken: the property yields no profile, or an empty
    one. *)
Definition masking_mode (E : Env) (st : State) : Prop :=
  exists v, (scaling_ranges E st).1 = Ok v /\ truthy v = false.

(** The calibrated path is taken, with the profile [prof]. *)
Definition calibrated_mode (E : Env) (st : State) (prof : profile) : Prop :=
  (scaling_ranges E st).1 = Ok (Some prof) /\ prof <> [].

(** The attributes the base initializer sets. *)
Definition configured (st : State) (vt : string) (dev : torch_device) : Prop :=
  vec_type (self st) = Some vt /\ device (self st) = Some dev.

(** A range numpy can sample from: two numbers a finite distance apart. *)
Definition samplable (r : json * json) : Prop :=
  exists lo hi, as_double r.1 = Ok lo /\ as_double r.2 = Ok hi
                /\ Float.is_finite (Float.sub64 hi lo) = true.

(** The stacked vectors of the batch at [out]. *)
Definition output_rows (st' : State) (out : addr) (d : torch_device)
    (rows' : list (list spec_float)) : Prop :=
  exists se' vectors,
    heap st' !! out = Some (OBatch se')
    /\ se_vectors se' = Some vectors
    /\ heap st' !! vectors = Some (OTensor (T2 d rows')).

(** The output batch carries the input's identifiers and metadata, around a
    new tensor on device [d] holding the vectors [rows'], one per
    identifier. *)
Definition anonymized_like (st st' : State) (se : SpeakerEmbeddings) (out : addr)
    (d : torch_device) (rows' : list (list spec_float)) : Prop :=
  exists se' vectors,
    heap st' !! out = Some (OBatch se')
    /\ se_identifiers se' = se_identifiers se
    /\ se_genders se' = se_genders se
    /\ se_original_speakers se' = se_original_speakers se
    /\ se_vectors se' = Some vectors
    /\ heap st !! vectors = None
    /\ heap st' !! vectors = Some (OTensor (T2 d rows'))
    /\ length rows' = length (se_identifiers se).

(** The pending path has been cleared: the property loads no more. *)
Definition settled (st : State) : Prop :=
  stats_per_dim_path (self st) = Some None.

(** The state update [f] keeps the invariant [I] and the observation
    [proj] of the state. *)
Definition blind {X} (I : State -> Prop) (proj : State -> X)
    (f : State -> State) : Prop :=
  forall st, I st -> I (f st) /\ proj (f st) = proj st.

(** Running [m] from a state in [I] ends in [I] with the same observation
    [proj], whether [m] returns or raises. *)
Definition keeps {A X} (I : State -> Prop) (proj : State -> X) (m : M A) : Prop :=
  forall st, I st -> I (m st).2 /\ proj (m st).2 = proj st.

(** What [anonymize_embeddings] runs once the property has answered
    [ranges]. *)
Definition after_dispatch (E : Env) (ranges : option profile)
    (speaker_embeddings : addr) (emb_level : string) : M addr :=
  if truthy ranges then
    print "Anonymize vectors in scale!";;
    _anonymize_data_in_scale E speaker_embeddings
  else
    let* speakers := original_speakers speaker_embeddings in
    let* genders := genders speaker_embeddings in
    let* items := iterate speaker_embeddings in
    let* anon := for_each (masked_vector E) items in
    let identifiers := anon.*1 in
    let anon_vectors := anon.*2 in
    let* vt := getattr "vec_type" vec_type in
    let* dev := getattr "device" device in
    let* anon_embeddings := SpeakerEmbeddings_new vt dev (Some emb_level) in
    let* stacked := torch_stack anon_vectors in
    set_vectors anon_embeddings identifiers stacked genders speakers;;
    ret anon_embeddings.

(** The double numpy makes of the [i]-th output of its generator. *)
Definition np_double (E : Env) (i : nat) : spec_float :=
  binary_normalize Float.prec64 Float.emax64 (np_raw E i mod 2 ^ 53) (-53) false.

(** The sample [low + (high - low) * u] for the range [r], with [u] the
    [i]-th double. *)
Definition np_sample (E : Env) (i : nat) (r : json * json) : spec_float :=
  match as_double r.1, as_double r.2 with
  | Ok low, Ok high =>
      Float.add64 low (Float.mul64 (Float.sub64 high low) (np_double E i))
  | _, _ => S754_nan
  end.

(** The samples for a profile, drawn from generator position [pos] on. *)
Fixpoint np_samples (E : Env) (pos : nat) (prof : profile) : list spec_float :=
  match prof with
  | [] => []
  | r :: prof' => np_sample E pos r :: np_samples E (S pos) prof'
  end.

(** [n] calibrated vectors, the first drawn at generator position [pos]. *)
Fixpoint sample_rows (E : Env) (pos : nat) (prof : profile) (n : nat)
    : list (list spec_float) :=
  match n with
  | O => []
  | S n' =>
      map Float.narrow (np_samples E pos prof)
      :: sample_rows E (pos + length prof) prof n'
  end.

(** ** Facts about the monad *)

Lemma bind_ok {A B} (m : M A) (k : A -> M B) st a st' :
  m st = (Ok a, st') -> bind m k st = k a st'.
Proof. intros H. unfold bind. now rewrite H. Qed.

Lemma bind_raise {A B} (m : M A) (k : A -> M B) st e st' :
  m st = (Raise e, st') -> bind m k st = (Raise e, st').
Proof. intros H. unfold bind. now rewrite H. Qed.

Lemma bind_inv_ok {A B} (m : M A) (k : A -> M B) st b st' :
  bind m k st = (Ok b, st') ->
  exists a st1, m st = (Ok a, st1) /\ k a st1 = (Ok b, st').
Proof.
  unfold bind. destruct (m st) as [[a|e] st1]; intros H.
  - now exists a, st1.
  - discriminate.
Qed.

(** A loop over a pure body leaves the state alone and succeeds exactly
    when the body does on every element. *)
Lemma for_each_lift_state {A B} (f : A -> result B) xs st :
  (for_each (fun x => lift (f x)) xs st).2 = st.
Proof.
  revert st. induction xs as [|x xs IH]; intros st; [done|].
  cbn [for_each]. unfold bind at 1. unfold lift at 1.
  destruct (f x) as [y|e]; [|done].
  unfold bind. specialize (IH st).
  destruct (for_each _ xs st) as [[ys|e] st1]; simpl in *; congruence.
Qed.

Lemma for_each_lift_ok {A B} (f : A -> result B) xs st :
  Forall (fun x => is_ok (f x) = true) xs ->
  exists ys, for_each (fun x => lift (f x)) xs st = (Ok ys, st)
             /\ Forall2 (fun x y => f x = Ok y) xs ys.
Proof.
  induction 1 as [|x xs Hx _ IH].
  - exists []. split; [done | constructor].
  - destruct IH as (ys & Hys & Hall).
    destruct (f x) as [y|e] eqn:Hy; [|discriminate].
    exists (y :: ys). split; [|by constructor].
    cbn [for_each]. unfold bind at 1, lift at 1. rewrite Hy.
    unfold bind. now rewrite Hys.
Qed.

(** ** Facts about [sorted] *)

Section SortFacts.
Context {A : Type}.
Implicit Types (x : Z * A) (l : list (Z * A)).

Lemma insert_perm x l : PySorted.insert x l ≡ₚ x :: l.
Proof.
  induction l as [|y l IH]; cbn; [done|].
  destruct (x.1 <=? y.1); [done|].
  rewrite IH. apply perm_swap.
Qed.

Lemma sort_perm l : PySorted.sort l ≡ₚ l.
Proof.
  induction l as [|x l IH]; cbn; [done|].
  now rewrite insert_perm, IH.
Qed.

Lemma insert_sorted x l :
  StronglySorted fst_le l -> StronglySorted fst_le (PySorted.insert x l).
Proof.
  induction 1 as [|y l Hl IH Hy]; cbn.
  - repeat constructor.
  - destruct (Z.leb_spec x.1 y.1) as [Hle|Hgt].
    + constructor; [by constructor|].
      constructor; [done|].
      eapply Forall_impl; [exact Hy|]. unfold fst_le. intros; lia.
    + constructor; [done|].
      rewrite insert_perm. constructor; [unfold fst_le; lia | done].
Qed.

Lemma sort_sorted l : StronglySorted fst_le (PySorted.sort l).
Proof.
  induction l as [|x l IH]; cbn; [constructor | by apply insert_sorted].
Qed.

Lemma decorate_spec (key : A -> option Z) (xs : list A) d :
  PySorted.decorate key xs = Some d ->
  map snd d = xs /\ Forall (fun kx => key kx.2 = Some kx.1) d.
Proof.
  revert d. induction xs as [|a xs IH]; cbn; intros d H.
  - injection H as <-. by split.
  - destruct (key a) as [k|] eqn:Hk; [|discriminate].
    destruct (PySorted.decorate key xs) as [d'|]; [|discriminate].
    injection H as <-. destruct (IH d' eq_refl) as [Hm Hd'].
    split; [cbn; now rewrite Hm|]. by constructor.
Qed.

Lemma decorate_total (key : A -> option Z) (xs : list A) :
  Forall (fun a => is_Some (key a)) xs ->
  exists d, PySorted.decorate key xs = Some d.
Proof.
  induction 1 as [|a xs [k Hk] _ [d Hd]]; cbn; [by eexists|].
  rewrite Hk, Hd. by eexists.
Qed.

Lemma sorted_spec (key : A -> option Z) (xs ys : list A) :
  PySorted.sorted key xs = Some ys ->
  ys ≡ₚ xs /\ StronglySorted (key_le key) ys.
Proof.
  unfold PySorted.sorted.
  destruct (PySorted.decorate key xs) as [d|] eqn:Hd; [|discriminate].
  intros [= <-]. destruct (decorate_spec _ _ _ Hd) as [Hxs Hkeys].
  split.
  - rewrite <- Hxs. apply Permutation_map, sort_perm.
  - assert (Hk : Forall (fun kx => key kx.2 = Some kx.1) (PySorted.sort d))
      by now rewrite sort_perm.
    pose proof (sort_sorted d) as Hs.
    induction Hs as [|a l Hl IH Ha]; cbn; [constructor|].
    apply Forall_cons in Hk as [Hka Hkl].
    constructor; [by apply IH|].
    apply Forall_map.
    rewrite Forall_forall in Ha, Hkl. apply Forall_forall.
    intros b Hb. unfold key_le. cbn.
    rewrite Hka, (Hkl b Hb). apply Ha, Hb.
Qed.
End SortFacts.

(** ** The stats loader *)

(** [int] on keys at the edges of what it accepts, under CPython 3.11:
    white space, a sign and single underscores are read; the separator
    U+001C, white space to [str.strip] but not to [int] in an ASCII key, is
    refused; the no-break space U+00A0 and the Arabic-Indic digit three
    U+0663 are read; 4300 digits are read and 4301 are refused. *)
Lemma int_edge_keys :
  PyInt.int Demo.cpython " +1_0 " = Some 10
  /\ PyInt.int Demo.cpython "1__0" = None
  /\ PyInt.int Demo.cpython (Demo.text [28; 51]%nat) = None
  /\ PyInt.int Demo.cpython (Demo.text [194; 160; 51]%nat) = Some 3
  /\ PyInt.int Demo.cpython (Demo.text [217; 163]%nat) = Some 3
  /\ is_Some (PyInt.int Demo.cpython (Demo.text (replicate 4300 49%nat)))
  /\ PyInt.int Demo.cpython (Demo.text (replicate 4301 49%nat)) = None.
Proof.
  repeat split; try (vm_compute; reflexivity).
  vm_compute. eauto.
Qed.

Lemma load_scaling_ranges_inv E p st prof st' :
  _load_scaling_ranges E p st = (Ok prof, st') ->
  st' = with_reads (default "stats_per_dim.json" p :: reads st) st.
Proof.
  unfold _load_scaling_ranges, open.
  replace (match p with None => "stats_per_dim.json" | Some q => q end)
    with (default "stats_per_dim.json" p) by now destruct p.
  set (path := default _ p).
  destruct (fs E !! path) as [f|]; [|discriminate].
  unfold bind at 1 2. cbn [modify ret].
  destruct f as [|j]; [discriminate|].
  unfold bind at 1. cbn [json_load ret].
  destruct j; try discriminate. unfold bind at 1. cbn [dict_items ret].
  unfold bind at 1.
  destruct (PySorted.sorted _ items) as [o|]; [|discriminate].
  cbn [lift_opt ret]. intros H.
  pose proof (for_each_lift_state range_of o
    (with_reads (path :: reads st) st)) as Hst.
  rewrite H in Hst. exact Hst.
Qed.

Lemma load_scaling_ranges_ok E p items st :
  fs E !! default "stats_per_dim.json" p = Some (JSONText (JObj items)) ->
  Forall (well_formed_entry E) items ->
  exists ordered prof,
    _load_scaling_ranges E p st
      = (Ok prof, with_reads (default "stats_per_dim.json" p :: reads st) st)
    /\ ordered ≡ₚ items
    /\ StronglySorted (numeric_le E) ordered
    /\ Forall2 (fun kv r => range_of kv = Ok r) ordered prof.
Proof.
  intros Hfile Hwf.
  destruct (decorate_total (fun x : string * json => PyInt.int (interpreter E) x.1) items) as [d Hd].
  { eapply Forall_impl; [exact Hwf|]. by intros kv [? _]. }
  pose (ordered := map snd (PySorted.sort d)).
  assert (Hsorted : PySorted.sorted (fun x : string * json => PyInt.int (interpreter E) x.1) items
                    = Some ordered).
  { unfold PySorted.sorted. now rewrite Hd. }
  destruct (sorted_spec _ _ _ Hsorted) as [Hperm Hord].
  destruct (for_each_lift_ok range_of ordered
              (with_reads (default "stats_per_dim.json" p :: reads st) st))
    as (prof & Hrun & Hprof).
  { rewrite Hperm. eapply Forall_impl; [exact Hwf|]. by intros kv [_ ?]. }
  exists ordered, prof. repeat split; try done.
  unfold _load_scaling_ranges, open.
  replace (match p with None => "stats_per_dim.json" | Some q => q end)
    with (default "stats_per_dim.json" p) by now destruct p.
  rewrite Hfile. unfold bind at 1 2. cbn [modify ret].
  unfold bind at 1. cbn [json_load ret].
  unfold bind at 1. cbn [dict_items ret].
  unfold bind at 1. rewrite Hsorted. cbn [lift_opt ret].
  exact Hrun.
Qed.

(** C6: the loader orders the entries of the statistics file by the numeric
    value of their keys and returns their (min, max) pairs in that order,
    without the keys; on the file
    [{"10": {"min":1,"max":2}, "2": {"min":3,"max":4}}] it returns
    [[(3,4); (1,2)]]. *)
Theorem load_scaling_ranges_numeric_order E path items st :
  fs E !! path = Some (JSONText (JObj items)) ->
  Forall (well_formed_entry E) items ->
  (exists ordered prof,
      (_load_scaling_ranges E (Some path) st).1 = Ok prof
      /\ ordered ≡ₚ items
      /\ StronglySorted (numeric_le E) ordered
      /\ Forall2 (fun kv r => range_of kv = Ok r) ordered prof)
  /\ (JObj items = Demo.stats ->
      (_load_scaling_ranges E (Some path) st).1
        = Ok [(JInt 3, JInt 4); (JInt 1, JInt 2)]).
Proof.
  intros Hfile Hwf.
  destruct (load_scaling_ranges_ok E (Some path) items st Hfile Hwf)
    as (ordered & prof & Hrun & Hperm & Hord & Hprof).
  split.
  - exists ordered, prof. now rewrite Hrun.
  - intros [= ->].
    unfold _load_scaling_ranges, open. rewrite Hfile.
    unfold bind at 1 2. cbn [modify ret].
    unfold bind at 1. cbn [json_load ret].
    unfold bind at 1. cbn [dict_items ret].
    unfold bind at 1.
    change (PySorted.sorted _ _) with
      (Some [("2", JObj [("min", JInt 3); ("max", JInt 4)]);
             ("10", JObj [("min", JInt 1); ("max", JInt 2)])]).
    reflexivity.
Qed.

Lemma load_scaling_ranges_numeric_order_witness :
  (_load_scaling_ranges Demo.env (Some "stats.json") Demo.st0).1
    = Ok [(JInt 3, JInt 4); (JInt 1, JInt 2)].
Proof.
  refine (proj2 (load_scaling_ranges_numeric_order Demo.env "stats.json"
                   [("10", JObj [("min", JInt 1); ("max", JInt 2)]);
                    ("2", JObj [("min", JInt 3); ("max", JInt 4)])]
                   Demo.st0 _ _) _).
  - vm_compute. reflexivity.
  - repeat constructor; vm_compute; eauto.
  - reflexivity.
Defined.

(** ** The lazy property *)

Lemma scaling_ranges_cached E st v :
  stats_per_dim_path (self st) = Some None ->
  _scaling_ranges (self st) = Some v ->
  scaling_ranges E st = (Ok v, st).
Proof.
  intros Hp Hr. unfold scaling_ranges, getattr, bind, get, lift_opt, ret.
  rewrite Hp. cbn. now rewrite Hr.
Qed.

Lemma scaling_ranges_unset E st :
  stats_per_dim_path (self st) = Some None ->
  _scaling_ranges (self st) = None ->
  scaling_ranges E st = (Raise (AttributeError "_scaling_ranges"), st).
Proof.
  intros Hp Hr. unfold scaling_ranges, getattr, bind, get, lift_opt, ret.
  rewrite Hp. cbn. now rewrite Hr.
Qed.

Lemma scaling_ranges_pending E st p prof st1 :
  stats_per_dim_path (self st) = Some (Some p) ->
  _load_scaling_ranges E (Some p) st = (Ok prof, st1) ->
  scaling_ranges E st = (Ok (Some prof), with_self (loaded prof (self st)) st1).
Proof.
  intros Hp Hload.
  pose proof (load_scaling_ranges_inv _ _ _ _ _ Hload) as ->.
  unfold scaling_ranges.
  unfold bind at 1. unfold getattr at 1, bind at 1, get, lift_opt.
  rewrite Hp. cbn [ret].
  unfold bind at 1. unfold bind at 1. rewrite Hload.
  reflexivity.
Qed.

(** Construction assigns the attributes and touches nothing else. *)
Lemma RandomAnonymizer_new_spec dev vt mn in_scale p st0 :
  exists name,
    RandomAnonymizer_new dev vt mn in_scale p st0
    = (Ok tt,
       with_self {| vec_type := Some vt; device := Some dev;
                    model_name := Some name;
                    stats_per_dim_path := Some (if in_scale then p else None);
                    _scaling_ranges := if in_scale then None else Some None |}
                 st0).
Proof.
  eexists. unfold RandomAnonymizer_new, __init__, BaseAnonymizer_init.
  destruct in_scale; reflexivity.
Qed.



(** C10: built with [in_scale=True] and [stats_per_dim_path=None], the
    object never gets a [_scaling_ranges] attribute (only the uncalibrated
    branch of the constructor assigns it), so every read of [scaling_ranges],
    and with it every call of [anonymize_embeddings], raises an
    attribute error and leaves the state as it was. *)
Theorem in_scale_without_path_raises E dev vt mn st0 batch emb_level :
  let st := (RandomAnonymizer_new dev vt mn true None st0).2 in
  _scaling_ranges (self st) = None
  /\ _scaling_ranges (self (RandomAnonymizer_new dev vt mn false None st0).2)
     = Some None
  /\ scaling_ranges E st = (Raise (AttributeError "_scaling_ranges"), st)
  /\ anonymize_embeddings E batch emb_level st
     = (Raise (AttributeError "_scaling_ranges"), st).
Proof.
  destruct (RandomAnonymizer_new_spec dev vt mn true None st0) as [name ->].
  destruct (RandomAnonymizer_new_spec dev vt mn false None st0) as [name' ->].
  cbn [snd]. split; [reflexivity|]. split; [reflexivity|]. split.
  - now apply scaling_ranges_unset.
  - unfold anonymize_embeddings. apply bind_raise.
    now apply scaling_ranges_unset.
Qed.

(** C8 (evaluation of the code): with the default file present and well
    formed, the loader called without a path does read
    [stats_per_dim.json]; but an object built with [in_scale=True] and no
    path never calls the loader: reading [scaling_ranges] raises and no file
    is opened. *)
Theorem default_stats_file_not_reached E dev vt mn items st0 :
  fs E !! "stats_per_dim.json" = Some (JSONText (JObj items)) ->
  Forall (well_formed_entry E) items ->
  let st := (RandomAnonymizer_new dev vt mn true None st0).2 in
  (exists prof st1,
      _load_scaling_ranges E None st = (Ok prof, st1)
      /\ reads st1 = "stats_per_dim.json" :: reads st0)
  /\ exists e st1,
      scaling_ranges E st = (Raise e, st1) /\ reads st1 = reads st0.
Proof.
  intros Hfile Hwf.
  destruct (RandomAnonymizer_new_spec dev vt mn true None st0) as [name ->].
  cbn [snd]. split.
  - destruct (load_scaling_ranges_ok E None items
                (with_self {| vec_type := Some vt; device := Some dev;
                              model_name := Some name;
                              stats_per_dim_path := Some None;
                              _scaling_ranges := None |} st0) Hfile Hwf)
      as (ordered & prof & Hrun & _).
    eexists prof, _. split; [exact Hrun | reflexivity].
  - eexists _, _. split; [now apply scaling_ranges_unset | reflexivity].
Qed.

Lemma default_stats_file_not_reached_witness :
  let st := (RandomAnonymizer_new CPU "xvector" None true None
               Demo.st0).2 in
  (exists prof st1,
      _load_scaling_ranges Demo.env_default None st = (Ok prof, st1)
      /\ reads st1 = ["stats_per_dim.json"])
  /\ exists e st1,
      scaling_ranges Demo.env_default st = (Raise e, st1) /\ reads st1 = [].
Proof.
  apply (default_stats_file_not_reached Demo.env_default CPU "xvector" None
           [("10", JObj [("min", JInt 1); ("max", JInt 2)]);
            ("2", JObj [("min", JInt 3); ("max", JInt 4)])] Demo.st0).
  - vm_compute. reflexivity.
  - repeat constructor; vm_compute; eauto.
Defined.

(** ** Framing: what a computation does to the heap *)

Create HintDb frame.

(** Projections of updated states. *)
Ltac simpl_state :=
  unfold with_self, with_reads, with_stdout, with_torch_pos, with_np_pos,
    with_heap;
  cbn [self reads stdout torch_pos np_pos heap next_addr fst snd].

Lemma preserves_refl n st : heap_wf st -> preserves n st st.
Proof. by repeat split. Qed.

Lemma preserves_trans n st1 st2 st3 :
  preserves n st1 st2 -> preserves n st2 st3 -> preserves n st1 st3.
Proof.
  intros (_ & Hn1 & Hh1) (Hwf & Hn2 & Hh2). repeat split; [done | lia |].
  intros a Ha. rewrite Hh2, Hh1; auto.
Qed.

Lemma heap_same_ret {A} (a : A) : heap_same (ret a).
Proof. by intros st. Qed.

Lemma heap_same_raise {A} e : heap_same (@raise A e).
Proof. by intros st. Qed.

Lemma heap_same_lift {A} (r : result A) : heap_same (lift r).
Proof. by intros st. Qed.

Lemma heap_same_lift_opt {A} e (o : option A) : heap_same (lift_opt e o).
Proof. by destruct o; intros st. Qed.

Lemma heap_same_bind {A B} (m : M A) (k : A -> M B) :
  heap_same m -> (forall a, heap_same (k a)) -> heap_same (bind m k).
Proof.
  intros Hm Hk st. unfold bind. specialize (Hm st).
  destruct (m st) as [[a|e] st1]; cbn in *; [|done].
  destruct (Hk a st1) as [-> ->]. done.
Qed.

Lemma heap_same_for_each {A B} (body : A -> M B) xs :
  (forall x, heap_same (body x)) -> heap_same (for_each body xs).
Proof.
  intros Hb. induction xs as [|x xs IH]; cbn [for_each].
  - apply heap_same_ret.
  - apply heap_same_bind; [apply Hb|]. intros y.
    apply heap_same_bind; [apply IH|]. intros ys. by intros st.
Qed.

Lemma heap_same_get : heap_same get.
Proof. by intros st. Qed.

Lemma heap_same_setattr f : heap_same (setattr f).
Proof. by intros st. Qed.

Lemma heap_same_getattr {A} name (field : RandomAnonymizer -> option A) :
  heap_same (getattr name field).
Proof.
  unfold getattr. apply heap_same_bind; [apply heap_same_get|].
  intros st. apply heap_same_lift_opt.
Qed.

Lemma heap_same_print line : heap_same (print line).
Proof. by intros st. Qed.

Lemma heap_same_next_torch_word E : heap_same (next_torch_word E).
Proof. by intros st. Qed.

Lemma heap_same_next_np_double E : heap_same (next_np_double E).
Proof. by intros st. Qed.

#[local] Hint Resolve heap_same_ret heap_same_raise heap_same_lift
  heap_same_lift_opt heap_same_get heap_same_setattr heap_same_getattr
  heap_same_print heap_same_next_torch_word heap_same_next_np_double : frame.

Lemma heap_same_load_scaling_ranges E p : heap_same (_load_scaling_ranges E p).
Proof.
  unfold _load_scaling_ranges, open.
  apply heap_same_bind.
  { destruct (fs E !! _); [|auto with frame].
    apply heap_same_bind; [by intros st | auto with frame]. }
  intros f. apply heap_same_bind; [destruct f; auto with frame|].
  intros j. apply heap_same_bind; [destruct j; cbn; auto with frame|].
  intros items. apply heap_same_bind; [auto with frame|].
  intros o. apply heap_same_for_each. auto with frame.
Qed.

Lemma heap_same_scaling_ranges E : heap_same (scaling_ranges E).
Proof.
  unfold scaling_ranges.
  apply heap_same_bind; [auto with frame|]. intros [p|].
  - apply heap_same_bind; [|auto with frame].
    apply heap_same_bind; [apply heap_same_load_scaling_ranges|].
    intros prof. apply heap_same_bind; auto with frame.
  - apply heap_same_bind; auto with frame.
Qed.

Lemma heap_same_np_random_uniform E r : heap_same (np_random_uniform E r).
Proof.
  unfold np_random_uniform.
  apply heap_same_bind; [auto with frame|]. intros low.
  apply heap_same_bind; [auto with frame|]. intros high.
  destruct (Float.is_finite _); [|auto with frame].
  apply heap_same_bind; auto with frame.
Qed.

#[local] Hint Resolve heap_same_scaling_ranges heap_same_np_random_uniform : frame.

Lemma framed_heap_same {A} n (m : M A) : heap_same m -> framed n (fun _ => True) m.
Proof.
  intros Hm st Hwf Hn. destruct (Hm st) as [Hh Hnext].
  split; [|done]. repeat split.
  - intros a o. rewrite Hh, Hnext. apply Hwf.
  - now rewrite Hnext.
  - intros a _. now rewrite Hh.
Qed.

Lemma framed_ret {A} n (Q : A -> Prop) a : Q a -> framed n Q (ret a).
Proof.
  intros HQ st Hwf Hn. split; [by apply preserves_refl|].
  by intros x [= <-].
Qed.

Lemma framed_raise {A} n (Q : A -> Prop) e : framed n Q (raise e).
Proof. intros st Hwf Hn. split; [by apply preserves_refl | done]. Qed.

Lemma framed_weaken {A} n (P Q : A -> Prop) (m : M A) :
  (forall x, P x -> Q x) -> framed n P m -> framed n Q m.
Proof.
  intros HPQ Hm st Hwf Hn. destruct (Hm st Hwf Hn) as [Hp HP].
  split; [done|]. intros x Hx. auto.
Qed.

Lemma framed_bind {A B} n (P : A -> Prop) (Q : B -> Prop) (m : M A) (k : A -> M B) :
  framed n P m -> (forall a, P a -> framed n Q (k a)) -> framed n Q (bind m k).
Proof.
  intros Hm Hk st Hwf Hn. unfold bind.
  destruct (Hm st Hwf Hn) as [Hp HP].
  destruct (m st) as [[a|e] st1]; cbn in *; [|done].
  destruct Hp as (Hwf1 & Hn1 & Hh1).
  destruct (Hk a (HP a eq_refl) st1 Hwf1 ltac:(lia)) as [Hp2 HQ].
  split; [|done]. eapply preserves_trans; [|exact Hp2]. by repeat split.
Qed.

Lemma framed_for_each {A B} n (Q : B -> Prop) (body : A -> M B) xs :
  (forall x, framed n Q (body x)) -> framed n (Forall Q) (for_each body xs).
Proof.
  intros Hb. induction xs as [|x xs IH]; cbn [for_each].
  - by apply framed_ret.
  - eapply framed_bind; [apply Hb|]. intros y Hy.
    eapply framed_bind; [apply IH|]. intros ys Hys.
    apply framed_ret. by constructor.
Qed.

Lemma framed_alloc n o : framed n (fun a => (n <= a)%nat) (alloc o).
Proof.
  intros st Hwf Hn. unfold alloc, bind, get, modify, ret. simpl_state. split.
  - repeat split; simpl_state.
    + intros a o'. simpl_state.
      destruct (decide (next_addr st = a)) as [<-|Hne].
      * lia.
      * rewrite lookup_insert_ne by done. intros H%Hwf. lia.
    + lia.
    + intros a Ha. apply lookup_insert_ne. lia.
  - by intros x [= <-].
Qed.

Lemma framed_load n a : framed n (fun _ => True) (load a).
Proof.
  apply framed_heap_same. unfold load.
  apply heap_same_bind; auto with frame.
Qed.

(** A store at an address that is allocated and not below [n]. *)
Lemma store_preserves n a o st :
  heap_wf st -> is_Some (heap st !! a) -> (n <= a)%nat ->
  preserves n st (store a o st).2.
Proof.
  intros Hwf Ha Hn. unfold store, modify. repeat split; simpl_state; [|lia|].
  - intros a' o'. simpl_state. destruct (decide (a = a')) as [<-|Hne].
    + intros _. destruct Ha as [? Ha]. eauto.
    + rewrite lookup_insert_ne by done. apply Hwf.
  - intros a' Ha'. apply lookup_insert_ne. lia.
Qed.

Lemma framed_write_vec n t ys :
  fresh_ref n t -> framed n (fun _ => True) (write_vec t ys).
Proof.
  intros Ht st Hwf Hn. split; [|done].
  destruct t as [a|base i]; cbn [write_vec fresh_ref] in *.
  - unfold bind, load, get, lift_opt. cbn.
    destruct (heap st !! a) as [o|] eqn:Ha; cbn; [|by apply preserves_refl].
    destruct o as [|[d xs|]|]; try by apply preserves_refl.
    apply store_preserves; eauto.
  - unfold bind, load, get, lift_opt. cbn.
    destruct (heap st !! base) as [o|] eqn:Ha; cbn; [|by apply preserves_refl].
    destruct o as [|[|d rows]|]; try by apply preserves_refl.
    apply store_preserves; eauto.
Qed.

Lemma heap_same_read_vec t : heap_same (read_vec t).
Proof.
  destruct t as [a|base i]; cbn [read_vec]; unfold load.
  - apply heap_same_bind; [apply heap_same_bind; auto with frame|].
    intros [|[]|]; auto with frame.
  - apply heap_same_bind; [apply heap_same_bind; auto with frame|].
    intros [|[]|]; auto with frame.
Qed.

#[local] Hint Resolve heap_same_read_vec : frame.

Lemma framed_read_vec n t : framed n (fun _ => True) (read_vec t).
Proof. apply framed_heap_same. auto with frame. Qed.

Lemma framed_torch_zeros n k : framed n (fresh_ref n) (torch_zeros k).
Proof.
  unfold torch_zeros. eapply framed_bind; [apply framed_alloc|].
  intros a Ha. by apply framed_ret.
Qed.

Lemma framed_random_ E n t from to :
  fresh_ref n t -> framed n (fresh_ref n) (random_ E t from to).
Proof.
  intros Ht. unfold random_.
  eapply framed_bind; [apply framed_read_vec|]. intros dx _.
  eapply framed_bind.
  { apply framed_heap_same, heap_same_for_each. intros x. unfold random_elem.
    apply heap_same_bind; auto with frame. }
  intros ys _. eapply framed_bind; [by apply framed_write_vec|].
  intros _ _. by apply framed_ret.
Qed.

Lemma framed_to E n t dev :
  fresh_ref n t -> framed n (fresh_ref n) (to E t dev).
Proof.
  intros Ht. unfold to.
  eapply framed_bind; [apply framed_read_vec|]. intros dx _.
  destruct (decide (dx.1 = dev)); [by apply framed_ret|].
  destruct (available E dev); [|apply framed_raise].
  eapply framed_bind; [apply framed_alloc|].
  intros a Ha. by apply framed_ret.
Qed.

Lemma framed_mul n a b : framed n (fresh_ref n) (mul a b).
Proof.
  unfold mul.
  eapply framed_bind; [apply framed_read_vec|]. intros x _.
  eapply framed_bind; [apply framed_read_vec|]. intros y _.
  destruct (decide (x.1 = y.1)); [|apply framed_raise].
  destruct (decide (length x.2 = length y.2)); [|apply framed_raise].
  eapply framed_bind; [apply framed_alloc|].
  intros r Hr. by apply framed_ret.
Qed.

Lemma framed_torch_tensor n xs : framed n (fresh_ref n) (torch_tensor xs).
Proof.
  unfold torch_tensor. eapply framed_bind; [apply framed_alloc|].
  intros a Ha. by apply framed_ret.
Qed.

Lemma framed_torch_stack n ts : framed n (fun a => (n <= a)%nat) (torch_stack ts).
Proof.
  unfold torch_stack. eapply framed_bind.
  { apply framed_heap_same, heap_same_for_each. auto with frame. }
  intros [|v rest] _; [apply framed_raise|].
  destruct (forallb _ rest); [apply framed_alloc | apply framed_raise].
Qed.

Lemma heap_same_load_batch b : heap_same (load_batch b).
Proof.
  unfold load_batch, load.
  apply heap_same_bind; [apply heap_same_bind; auto with frame|].
  intros [| |se]; auto with frame.
Qed.

#[local] Hint Resolve heap_same_load_batch : frame.

Lemma heap_same_original_speakers b : heap_same (original_speakers b).
Proof. unfold original_speakers. apply heap_same_bind; auto with frame. Qed.

Lemma heap_same_genders b : heap_same (genders b).
Proof. unfold genders. apply heap_same_bind; auto with frame. Qed.

Lemma heap_same_iterate b : heap_same (iterate b).
Proof.
  unfold iterate, load. apply heap_same_bind; [auto with frame|].
  intros se. apply heap_same_bind; [auto with frame|].
  intros v. apply heap_same_bind; [apply heap_same_bind; auto with frame|].
  intros [|[d xs|d rows]|]; auto with frame.
  destruct (_ <=? _)%nat; auto with frame.
Qed.

#[local] Hint Resolve heap_same_original_speakers heap_same_genders
  heap_same_iterate : frame.

Lemma framed_SpeakerEmbeddings_new n vt dev lvl :
  framed n (fun a => (n <= a)%nat) (SpeakerEmbeddings_new vt dev lvl).
Proof. apply framed_alloc. Qed.

Lemma framed_set_vectors n b ids v g s :
  (n <= b)%nat -> framed n (fun _ => True) (set_vectors b ids v g s).
Proof.
  intros Hb st Hwf Hn. split; [|done].
  unfold set_vectors, load_batch, bind, load, get, lift_opt. cbn.
  destruct (heap st !! b) as [o|] eqn:Ho; cbn; [|by apply preserves_refl].
  destruct o as [| |se]; try by apply preserves_refl.
  apply store_preserves; eauto.
Qed.

Lemma framed_masked_vector E n item :
  framed n (fun r => fresh_ref n r.2) (masked_vector E item).
Proof.
  unfold masked_vector, shape0, float.
  eapply framed_bind.
  { eapply framed_bind; [apply framed_read_vec|]. intros dx _.
    by apply (framed_ret n (fun _ => True)). }
  intros k _. eapply framed_bind; [apply framed_torch_zeros|]. intros z Hz.
  eapply framed_bind; [by apply framed_ret|]. intros z' Hz'.
  eapply framed_bind; [by apply framed_random_|]. intros z'' Hz''.
  eapply framed_bind; [apply framed_heap_same; auto with frame|]. intros dev _.
  eapply framed_bind; [by apply framed_to|]. intros mask Hmask.
  eapply framed_bind; [apply framed_mul|]. intros anon_vec Hv.
  by apply framed_ret.
Qed.

Lemma framed_in_scale_vector E n item :
  framed n (fun r => fresh_ref n r.2) (in_scale_vector E item).
Proof.
  unfold in_scale_vector.
  eapply framed_bind; [apply framed_heap_same; auto with frame|]. intros r _.
  eapply framed_bind; [apply framed_heap_same; auto with frame|]. intros prof _.
  eapply framed_bind.
  { apply framed_heap_same, heap_same_for_each. auto with frame. }
  intros samples _.
  eapply framed_bind; [apply framed_torch_tensor|]. intros t Ht.
  eapply framed_bind; [apply framed_heap_same; auto with frame|]. intros dev _.
  eapply framed_bind; [by apply framed_to|]. intros anon_vec Hv.
  by apply framed_ret.
Qed.

(** The part both paths share: a new batch around the stacked vectors. *)
Lemma framed_new_batch n (anon : list (string * tref)) lvl g s :
  framed n (fun a => (n <= a)%nat)
    (let* vt := getattr "vec_type" vec_type in
     let* dev := getattr "device" device in
     let* anon_embeddings := SpeakerEmbeddings_new vt dev lvl in
     let* stacked := torch_stack anon.*2 in
     set_vectors anon_embeddings anon.*1 stacked g s;;
     ret anon_embeddings).
Proof.
  eapply framed_bind; [apply framed_heap_same; auto with frame|]. intros vt _.
  eapply framed_bind; [apply framed_heap_same; auto with frame|]. intros dev _.
  eapply framed_bind; [apply framed_SpeakerEmbeddings_new|]. intros b Hb.
  eapply framed_bind; [apply framed_torch_stack|]. intros v Hv.
  eapply framed_bind; [by apply framed_set_vectors|]. intros _ _.
  by apply framed_ret.
Qed.

Lemma framed_anonymize_data_in_scale E n b :
  framed n (fun a => (n <= a)%nat) (_anonymize_data_in_scale E b).
Proof.
  unfold _anonymize_data_in_scale.
  eapply framed_bind; [apply framed_heap_same; auto with frame|]. intros s _.
  eapply framed_bind; [apply framed_heap_same; auto with frame|]. intros g _.
  eapply framed_bind; [apply framed_heap_same; auto with frame|]. intros items _.
  eapply framed_bind; [apply framed_for_each, framed_in_scale_vector|].
  intros anon _. apply framed_new_batch.
Qed.

Lemma framed_anonymize_embeddings E n b lvl :
  framed n (fun a => (n <= a)%nat) (anonymize_embeddings E b lvl).
Proof.
  unfold anonymize_embeddings.
  eapply framed_bind; [apply framed_heap_same; auto with frame|]. intros r _.
  destruct (truthy r).
  - eapply framed_bind; [apply framed_heap_same; auto with frame|]. intros _ _.
    apply framed_anonymize_data_in_scale.
  - eapply framed_bind; [apply framed_heap_same; auto with frame|]. intros s _.
    eapply framed_bind; [apply framed_heap_same; auto with frame|]. intros g _.
    eapply framed_bind; [apply framed_heap_same; auto with frame|]. intros items _.
    eapply framed_bind; [apply framed_for_each, framed_masked_vector|].
    intros anon _. apply framed_new_batch.
Qed.

(** ** Reading tensors *)

Lemma read_vec_ok st t d xs :
  vec_at st t d xs -> read_vec t st = (Ok (d, xs), st).
Proof.
  destruct t as [a|base i]; cbn [vec_at read_vec].
  - intros H. unfold bind, load, get, lift_opt. cbn. now rewrite H.
  - intros (rows & H & Hi). unfold bind, load, get, lift_opt. cbn.
    rewrite H. cbn. now rewrite Hi.
Qed.

Lemma for_each_read_vec st ts d rows :
  Forall2 (fun t xs => vec_at st t d xs) ts rows ->
  for_each read_vec ts st = (Ok (map (pair d) rows), st).
Proof.
  induction 1 as [|t xs ts rows Ht _ IH]; [done|].
  cbn [for_each map]. rewrite (bind_ok _ _ _ _ _ (read_vec_ok _ _ _ _ Ht)).
  rewrite (bind_ok _ _ _ _ _ IH). reflexivity.
Qed.

(** ** The masks drawn on the masking path *)

Lemma mask_value_range E i : -40 <= mask_value E i <= 39.
Proof.
  unfold mask_value, uniform_int_from_to.
  pose proof (Z.mod_pos_bound (torch_raw E i mod 2 ^ 32) (40 - -40)). lia.
Qed.

Lemma masks_range E pos n : Forall (fun z => -40 <= z <= 39) (masks E pos n).
Proof. apply Forall_map, Forall_forall. intros i _. apply mask_value_range. Qed.

Lemma length_masks E pos n : length (masks E pos n) = n.
Proof. unfold masks. now rewrite length_map, length_seq. Qed.

Lemma batch_masks_range E pos rows :
  Forall (Forall (fun z => -40 <= z <= 39)) (batch_masks E pos rows).
Proof.
  revert pos. induction rows as [|row rows IH]; intros pos; cbn; constructor.
  - apply masks_range.
  - apply IH.
Qed.

Lemma with_torch_pos_id st : with_torch_pos (torch_pos st) st = st.
Proof. by destruct st. Qed.

Lemma random_elem_eq E from to x st :
  random_elem E from to x st
  = (Ok (Float.of_Z32
           (uniform_int_from_to (torch_raw E (torch_pos st) mod 2 ^ 32) (to - from) from)),
     with_torch_pos (S (torch_pos st)) st).
Proof. reflexivity. Qed.

Lemma random_elems_ok E from to xs st :
  for_each (random_elem E from to) xs st
  = (Ok (map (fun i => Float.of_Z32
                (uniform_int_from_to (torch_raw E i mod 2 ^ 32) (to - from) from))
             (seq (torch_pos st) (length xs))),
     with_torch_pos (torch_pos st + length xs) st).
Proof.
  revert st. induction xs as [|x xs IH]; intros st.
  - cbn. now rewrite Nat.add_0_r, with_torch_pos_id.
  - cbn [for_each length seq map].
    rewrite (bind_ok _ _ _ _ _ (random_elem_eq _ _ _ _ _)).
    rewrite (bind_ok _ _ _ _ _ (IH _)). unfold ret. simpl_state.
    do 2 f_equal. lia.
Qed.

(** ** Running the tensor operations *)

Ltac step H := rewrite (bind_ok _ _ _ _ _ H).

Lemma getattr_ok {A} name (field : RandomAnonymizer -> option A) st x :
  field (self st) = Some x -> getattr name field st = (Ok x, st).
Proof. intros H. unfold getattr, bind, get, lift_opt. now rewrite H. Qed.

Lemma shape0_ok st t d xs :
  vec_at st t d xs -> shape0 t st = (Ok (length xs), st).
Proof. intros H. unfold shape0. now step (read_vec_ok _ _ _ _ H). Qed.

Lemma random__ok E st a d xs from to :
  heap st !! a = Some (OTensor (T1 d xs)) ->
  random_ E (Own a) from to st
  = (Ok (Own a),
     with_heap
       (<[a := OTensor (T1 d
           (map (fun i => Float.of_Z32
                   (uniform_int_from_to (torch_raw E i mod 2 ^ 32) (to - from) from))
                (seq (torch_pos st) (length xs))))]> (heap st))
       (next_addr st)
       (with_torch_pos (torch_pos st + length xs) st)).
Proof.
  intros H. unfold random_.
  step (read_vec_ok st (Own a) d xs H). cbn [snd].
  step (random_elems_ok E from to xs st).
  unfold write_vec, load, store, bind, get, modify, lift_opt, ret. simpl_state.
  now rewrite H.
Qed.

Lemma to_same E st t d xs :
  vec_at st t d xs -> to E t d st = (Ok t, st).
Proof.
  intros H. unfold to. step (read_vec_ok _ _ _ _ H). cbn [fst].
  now rewrite decide_True.
Qed.

Lemma to_copy E st t d xs dev :
  vec_at st t d xs -> d <> dev -> available E dev = true ->
  to E t dev st
  = (Ok (Own (next_addr st)),
     with_heap (<[next_addr st := OTensor (T1 dev xs)]> (heap st))
               (S (next_addr st)) st).
Proof.
  intros H Hne Hav. unfold to. step (read_vec_ok _ _ _ _ H). cbn [fst snd].
  rewrite decide_False by done. now rewrite Hav.
Qed.

Lemma mul_ok st a b d xs ys :
  vec_at st a d xs -> vec_at st b d ys -> length xs = length ys ->
  mul a b st
  = (Ok (Own (next_addr st)),
     with_heap (<[next_addr st := OTensor (T1 d (zip_with Float.mul32 xs ys))]> (heap st))
               (S (next_addr st)) st).
Proof.
  intros Ha Hb Hlen. unfold mul.
  step (read_vec_ok _ _ _ _ Ha). step (read_vec_ok _ _ _ _ Hb). cbn [fst snd].
  rewrite decide_True by done. now rewrite decide_True by done.
Qed.

(** A tensor value reads the same in any state that agrees with [st] on
    the objects of [st]. *)
Lemma vec_at_agree st st' t d xs :
  heap_wf st ->
  (forall a, (a < next_addr st)%nat -> heap st' !! a = heap st !! a) ->
  vec_at st t d xs -> vec_at st' t d xs.
Proof.
  intros Hwf Hh. destruct t as [a|base i]; cbn [vec_at].
  - intros H. rewrite Hh; [done|]. eapply Hwf, H.
  - intros (rows & H & Hi). exists rows. split; [|done].
    rewrite Hh; [done|]. eapply Hwf, H.
Qed.

Lemma torch_zeros_eq n st :
  torch_zeros n st
  = (Ok (Own (next_addr st)),
     with_heap (<[next_addr st := OTensor (T1 CPU (replicate n Float.zero32))]> (heap st))
               (S (next_addr st)) st).
Proof. reflexivity. Qed.

Lemma ret_eq {A} (a : A) st : ret a st = (Ok a, st).
Proof. reflexivity. Qed.

(** One iteration of the masking loop. *)
Lemma masked_vector_ok E st identifier t dev row :
  heap_wf st ->
  device (self st) = Some dev ->
  available E dev = true ->
  vec_at st t dev row ->
  exists a st',
    masked_vector E (identifier, t) st = (Ok (identifier, Own a), st')
    /\ heap st' !! a
       = Some (OTensor (T1 dev (apply_mask row (masks E (torch_pos st) (length row)))))
    /\ preserves (next_addr st) st st'
    /\ self st' = self st
    /\ torch_pos st' = (torch_pos st + length row)%nat.
Proof.
  intros Hwf Hdev Hav Hrow.
  pose proof (framed_masked_vector E (next_addr st) (identifier, t) st Hwf
                (Nat.le_refl _)) as [Hpres _].
  revert Hpres. unfold masked_vector, float. cbn [fst snd].
  step (shape0_ok _ _ _ _ Hrow).
  step (torch_zeros_eq (length row) st).
  step (ret_eq (Own (next_addr st))
          (with_heap (<[next_addr st := OTensor (T1 CPU (replicate (length row) Float.zero32))]>
                        (heap st)) (S (next_addr st)) st)).
  set (a0 := next_addr st).
  set (st1 := with_heap _ (S a0) st).
  assert (H0 : heap st1 !! a0
               = Some (OTensor (T1 CPU (replicate (length row) Float.zero32))))
    by (subst st1; simpl_state; apply lookup_insert_eq).
  step (random__ok E st1 a0 CPU _ (-40) 40 H0).
  rewrite length_replicate.
  set (mask := map _ (seq (torch_pos st1) (length row)) : list spec_float).
  set (st2 := with_heap _ (next_addr st1) _).
  assert (Hmask : mask = map Float.of_Z32 (masks E (torch_pos st) (length row))).
  { subst mask. unfold masks. now rewrite map_map. }
  assert (Hd2 : device (self st2) = Some dev) by exact Hdev.
  step (getattr_ok "device" device st2 dev Hd2).
  assert (H2 : vec_at st2 (Own a0) CPU mask)
    by (subst st2; cbn [vec_at]; simpl_state; apply lookup_insert_eq).
  assert (Hrow2 : vec_at st2 t dev row).
  { apply (vec_at_agree st); [done| |done]. intros a Ha.
    subst st2 st1. simpl_state. rewrite !lookup_insert_ne by lia. done. }
  assert (Hlen : length row = length mask).
  { rewrite Hmask, length_map, length_masks. done. }
  destruct (decide (CPU = dev)) as [<-|Hne].
  - step (to_same E st2 (Own a0) CPU mask H2).
    step (mul_ok st2 t (Own a0) CPU row mask Hrow2 H2 Hlen).
    cbn [ret]. intros Hpres. eexists _, _. split; [reflexivity|].
    split; [|split; [exact Hpres|split; [reflexivity|]]].
    + simpl_state. rewrite lookup_insert_eq. unfold apply_mask. now rewrite Hmask.
    + subst st2 st1. simpl_state. done.
  - step (to_copy E st2 (Own a0) CPU mask dev H2 Hne Hav).
    set (st3 := with_heap _ (S (next_addr st2)) st2).
    assert (H3 : vec_at st3 (Own (next_addr st2)) dev mask)
      by (subst st3; cbn [vec_at]; simpl_state; apply lookup_insert_eq).
    assert (Hrow3 : vec_at st3 t dev row).
    { apply (vec_at_agree st); [done| |done]. intros a Ha.
      subst st3 st2 st1. simpl_state. rewrite !lookup_insert_ne by lia. done. }
    step (mul_ok st3 t (Own (next_addr st2)) dev row mask Hrow3 H3 Hlen).
    cbn [ret]. intros Hpres. eexists _, _. split; [reflexivity|].
    split; [|split; [exact Hpres|split; [reflexivity|]]].
    + simpl_state. rewrite lookup_insert_eq. unfold apply_mask. now rewrite Hmask.
    + subst st3 st2 st1. simpl_state. done.
Qed.

(** ** The masking loop *)

Lemma masked_loop_ok E dev items rows st :
  heap_wf st ->
  device (self st) = Some dev ->
  available E dev = true ->
  Forall2 (fun item row => vec_at st item.2 dev row) items rows ->
  exists anon st',
    for_each (masked_vector E) items st = (Ok anon, st')
    /\ anon.*1 = items.*1
    /\ Forall2 (fun t row' => vec_at st' t dev row') anon.*2
         (zip_with apply_mask rows (batch_masks E (torch_pos st) rows))
    /\ preserves (next_addr st) st st'
    /\ self st' = self st.
Proof.
  intros Hwf Hdev Hav Hrows. revert st Hwf Hdev Hrows.
  induction items as [|[identifier t] items IH] in rows |- *;
    intros st Hwf Hdev Hrows.
  - apply Forall2_nil_inv_l in Hrows as ->.
    exists [], st. repeat split; try done; constructor.
  - apply Forall2_cons_inv_l in Hrows as (row & rows' & Hrow & Hrows & ->).
    cbn [snd] in Hrow.
    destruct (masked_vector_ok E st identifier t dev row Hwf Hdev Hav Hrow)
      as (a & st1 & Hrun & Ha & Hpres1 & Hself1 & Hpos1).
    pose proof Hpres1 as (Hwf1 & Hn1 & Hh1).
    destruct (IH rows' st1 Hwf1) as (anon & st' & Hloop & Hids & Hvecs & Hpres2 & Hself2).
    { now rewrite Hself1. }
    { eapply Forall2_impl; [exact Hrows|]. intros item r Hr.
      apply (vec_at_agree st); done. }
    exists ((identifier, Own a) :: anon), st'.
    split; [|split; [|split; [|split]]].
    + cbn [for_each]. step Hrun. step Hloop. reflexivity.
    + cbn. now rewrite Hids.
    + cbn [fmap list_fmap snd batch_masks zip_with]. constructor.
      * destruct Hpres2 as (_ & _ & Hh2). cbn [vec_at].
        rewrite Hh2; [exact Ha|]. eapply Hwf1, Ha.
      * now rewrite <- Hpos1.
    + eapply preserves_trans; [exact Hpres1|].
      destruct Hpres2 as (Hwf2 & Hn2 & Hh2). repeat split; [done|done|].
      intros a' Ha'. apply Hh2. lia.
    + congruence.
Qed.

(** ** Building the output batch *)

Lemma same_shape_uniform d D (rows : list (list spec_float)) :
  Forall (fun row => length row = D) rows ->
  forallb (same_shape d D) (map (pair d) rows) = true.
Proof.
  induction 1 as [|row rows Hrow _ IH]; [done|].
  cbn. rewrite IH, andb_true_r. unfold same_shape. cbn.
  rewrite bool_decide_eq_true_2 by done. cbn. now apply Nat.eqb_eq.
Qed.

Lemma new_batch_ok st vt dev d lvl (anon : list (string * tref)) rows D g s :
  heap_wf st ->
  vec_type (self st) = Some vt ->
  device (self st) = Some dev ->
  Forall2 (fun t row => vec_at st t d row) anon.*2 rows ->
  rows <> [] ->
  Forall (fun row => length row = D) rows ->
  exists st',
    (let* vt := getattr "vec_type" vec_type in
     let* dev := getattr "device" device in
     let* anon_embeddings := SpeakerEmbeddings_new vt dev lvl in
     let* stacked := torch_stack anon.*2 in
     set_vectors anon_embeddings anon.*1 stacked g s;;
     ret anon_embeddings) st
    = (Ok (next_addr st), st')
    /\ heap st' !! next_addr st
       = Some (OBatch (output_batch vt dev lvl anon.*1 (S (next_addr st)) g s))
    /\ heap st' !! S (next_addr st) = Some (OTensor (T2 d rows))
    /\ self st' = self st.
Proof.
  intros Hwf Hvt Hdev Hvecs Hne Huni.
  step (getattr_ok "vec_type" vec_type st vt Hvt).
  step (getattr_ok "device" device st dev Hdev).
  unfold SpeakerEmbeddings_new.
  set (b := next_addr st).
  set (empty := OBatch _).
  assert (Halloc : alloc empty st
                   = (Ok b, with_heap (<[b := empty]> (heap st)) (S b) st))
    by reflexivity.
  step Halloc. set (st1 := with_heap _ (S b) st).
  assert (Hvecs1 : Forall2 (fun t row => vec_at st1 t d row) anon.*2 rows).
  { eapply Forall2_impl; [exact Hvecs|]. intros t r Hr.
    apply (vec_at_agree st); [done| |done]. intros a Ha.
    subst st1. simpl_state. apply lookup_insert_ne. lia. }
  assert (Hstack : torch_stack anon.*2 st1
                   = (Ok (S b),
                      with_heap (<[S b := OTensor (T2 d rows)]> (heap st1))
                                (S (S b)) st1)).
  { unfold torch_stack. step (for_each_read_vec st1 _ d rows Hvecs1).
    destruct rows as [|row rows']; [done|]. cbn [map fst snd].
    apply Forall_cons in Huni as [Hrow Huni]. rewrite Hrow.
    rewrite (same_shape_uniform d D rows' Huni).
    replace (row :: map snd (map (pair d) rows')) with (row :: rows').
    - reflexivity.
    - f_equal. rewrite map_map. cbn. now rewrite map_id. }
  step Hstack. set (st2 := with_heap _ (S (S b)) st1).
  unfold set_vectors, load_batch, load, store, bind, get, modify, lift_opt, ret.
  subst st2 st1 empty. simpl_state.
  rewrite lookup_insert_ne by lia. rewrite lookup_insert_eq.
  cbn [se_vec_type se_emb_level se_device]. simpl_state.
  eexists. split; [reflexivity|]. simpl_state. split; [|split; [|done]].
  - now rewrite lookup_insert_eq.
  - rewrite lookup_insert_ne by lia. now rewrite lookup_insert_eq.
Qed.

(** ** Valid batches *)

Lemma load_batch_ok st b se :
  heap st !! b = Some (OBatch se) -> load_batch b st = (Ok se, st).
Proof.
  intros H. unfold load_batch, load, bind, get, lift_opt. cbn. now rewrite H.
Qed.

Lemma original_speakers_ok st b se :
  heap st !! b = Some (OBatch se) ->
  original_speakers b st = (Ok (se_original_speakers se), st).
Proof. intros H. unfold original_speakers. now step (load_batch_ok _ _ _ H). Qed.

Lemma genders_ok st b se :
  heap st !! b = Some (OBatch se) -> genders b st = (Ok (se_genders se), st).
Proof. intros H. unfold genders. now step (load_batch_ok _ _ _ H). Qed.

Lemma iterate_ok st b se d rows D :
  valid_batch st b se d rows D ->
  exists items,
    iterate b st = (Ok items, st)
    /\ items.*1 = se_identifiers se
    /\ Forall2 (fun item row => vec_at st item.2 d row) items rows.
Proof.
  intros [Hb (v & Hv & Hrows) Hlen _ _].
  exists (imap (fun i identifier => (identifier, RowView v i)) (se_identifiers se)).
  split; [|split].
  - unfold iterate. step (load_batch_ok _ _ _ Hb). rewrite Hv.
    unfold load, bind, get, lift_opt, ret. cbn. rewrite Hrows.
    rewrite Hlen, Nat.leb_refl. reflexivity.
  - rewrite fmap_imap. unfold compose. cbn.
    rewrite (imap_const id). apply list_fmap_id.
  - apply Forall2_same_length_lookup_2; [now rewrite length_imap|].
    intros i item row Hitem Hrow. rewrite list_lookup_imap in Hitem.
    destruct (se_identifiers se !! i) as [identifier|]; [|done].
    injection Hitem as <-. cbn. eauto.
Qed.

(** ** Dispatch *)

(** What a successful read of [scaling_ranges] leaves behind. *)
Lemma scaling_ranges_ok_inv E st v st1 :
  scaling_ranges E st = (Ok v, st1) ->
  heap st1 = heap st /\ next_addr st1 = next_addr st
  /\ torch_pos st1 = torch_pos st /\ np_pos st1 = np_pos st
  /\ vec_type (self st1) = vec_type (self st)
  /\ device (self st1) = device (self st)
  /\ stats_per_dim_path (self st1) = Some None
  /\ _scaling_ranges (self st1) = Some v.
Proof.
  destruct (stats_per_dim_path (self st)) as [[p|]|] eqn:Hp.
  - destruct (_load_scaling_ranges E (Some p) st) as [[prof|e] st'] eqn:Hload.
    + rewrite (scaling_ranges_pending E st p prof st' Hp Hload).
      apply load_scaling_ranges_inv in Hload as ->.
      intros [= <- <-]. by repeat split.
    + unfold scaling_ranges.
      step (getattr_ok "stats_per_dim_path" stats_per_dim_path st _ Hp).
      rewrite (bind_raise _ _ _ e st'); [discriminate|].
      now apply bind_raise.
  - destruct (_scaling_ranges (self st)) as [v'|] eqn:Hr.
    + rewrite (scaling_ranges_cached E st v' Hp Hr).
      intros [= <- <-]. by repeat split.
    + now rewrite (scaling_ranges_unset E st Hp Hr).
  - unfold scaling_ranges, getattr, bind, get, lift_opt. cbn.
    now rewrite Hp.
Qed.

Lemma fresh_above st a :
  heap_wf st -> (next_addr st <= a)%nat -> heap st !! a = None.
Proof.
  intros Hwf Ha. destruct (heap st !! a) as [o|] eqn:H; [|done].
  apply Hwf in H. lia.
Qed.

Lemma valid_batch_agree st st' b se d rows D :
  heap st' = heap st -> valid_batch st b se d rows D ->
  valid_batch st' b se d rows D.
Proof. intros Hh [? ? ? ? ?]. split; try done; now rewrite Hh. Qed.

(** The masking path, run on a valid batch. *)
Lemma masking_run E st b emb_level se vt dev rows D :
  heap_wf st ->
  masking_mode E st ->
  configured st vt dev ->
  available E dev = true ->
  valid_batch st b se dev rows D ->
  exists out vectors st',
    anonymize_embeddings E b emb_level st = (Ok out, st')
    /\ heap st !! out = None
    /\ heap st !! vectors = None
    /\ heap st' !! out
       = Some (OBatch (output_batch vt dev (Some emb_level) (se_identifiers se)
                         vectors (se_genders se) (se_original_speakers se)))
    /\ heap st' !! vectors
       = Some (OTensor (T2 dev (masked_rows E (torch_pos st) rows))).
Proof.
  intros Hwf (v & Hv & Hfalse) [Hvt Hdev] Hav Hbatch.
  destruct (scaling_ranges E st) as [r st1] eqn:Hsr. cbn in Hv. subst r.
  destruct (scaling_ranges_ok_inv E st v st1 Hsr)
    as (Hh1 & Hn1 & Htp1 & _ & Hvt1 & Hdev1 & _ & _).
  assert (Hwf1 : heap_wf st1) by (intros a o; rewrite Hh1, Hn1; apply Hwf).
  apply (valid_batch_agree st st1) in Hbatch; [|done].
  rewrite Hvt in Hvt1. rewrite Hdev in Hdev1.
  destruct (iterate_ok st1 b se dev rows D Hbatch) as (items & Hiter & Hids & Hrows).
  destruct (masked_loop_ok E dev items rows st1 Hwf1 Hdev1 Hav Hrows)
    as (anon & st2 & Hloop & Hanon & Hvecs & Hpres & Hself).
  pose proof Hpres as (Hwf2 & Hn2 & Hh2).
  assert (Hne : zip_with apply_mask rows (batch_masks E (torch_pos st1) rows) <> []).
  { destruct Hbatch as [_ _ Hlen Hnil _].
    destruct rows as [|row rows']; [|done].
    destruct (se_identifiers se); [done | discriminate]. }
  assert (Huni : Forall (fun row => length row = D)
                   (zip_with apply_mask rows (batch_masks E (torch_pos st1) rows))).
  { destruct Hbatch as [_ _ _ _ Hu]. clear -Hu.
    generalize (torch_pos st1). induction Hu as [|row rows Hrow _ IH]; intros pos.
    - constructor.
    - cbn. constructor; [|apply IH].
      unfold apply_mask. rewrite length_zip_with, length_map, length_masks. lia. }
  destruct (new_batch_ok st2 vt dev dev (Some emb_level) anon
              (zip_with apply_mask rows (batch_masks E (torch_pos st1) rows)) D
              (se_genders se) (se_original_speakers se) Hwf2)
    as (st' & Htail & Hout & Hstacked & _); try done; try congruence.
  exists (next_addr st2), (S (next_addr st2)), st'.
  split; [|split; [|split; [|split]]].
  - unfold anonymize_embeddings. step Hsr. rewrite Hfalse.
    destruct Hbatch as [Hb _ _ _ _].
    step (original_speakers_ok _ _ _ Hb). step (genders_ok _ _ _ Hb).
    step Hiter. step Hloop. exact Htail.
  - apply fresh_above; [done | lia].
  - apply fresh_above; [done | lia].
  - now rewrite Hout, Hanon, Hids.
  - rewrite Hstacked. unfold masked_rows. now rewrite Htp1.
Qed.

(** ** The calibrated path *)

Lemma with_np_pos_id st : with_np_pos (np_pos st) st = st.
Proof. by destruct st. Qed.

Lemma np_random_uniform_ok E r st :
  samplable r ->
  exists x, np_random_uniform E r st = (Ok x, with_np_pos (S (np_pos st)) st).
Proof.
  intros (lo & hi & Hlo & Hhi & Hfin). eexists.
  unfold np_random_uniform, lift. unfold bind at 1. rewrite Hlo.
  unfold bind at 1. rewrite Hhi. rewrite Hfin. reflexivity.
Qed.

Lemma samples_ok E prof st :
  Forall samplable prof ->
  exists xs,
    for_each (np_random_uniform E) prof st
    = (Ok xs, with_np_pos (np_pos st + length prof) st)
    /\ length xs = length prof.
Proof.
  intros Hprof. revert st. induction Hprof as [|r prof Hr _ IH]; intros st.
  - exists []. cbn. now rewrite Nat.add_0_r, with_np_pos_id.
  - destruct (np_random_uniform_ok E r st Hr) as [x Hx].
    destruct (IH (with_np_pos (S (np_pos st)) st)) as (xs & Hxs & Hlen).
    exists (x :: xs). split; [|cbn; now rewrite Hlen].
    cbn [for_each]. step Hx. step Hxs. unfold ret. simpl_state.
    do 2 f_equal. cbn [length]. lia.
Qed.

Lemma torch_tensor_eq xs st :
  torch_tensor xs st
  = (Ok (Own (next_addr st)),
     with_heap (<[next_addr st := OTensor (T1 CPU (map Float.narrow xs))]> (heap st))
               (S (next_addr st)) st).
Proof. reflexivity. Qed.

(** One iteration of the calibrated loop. *)
Lemma in_scale_vector_ok E st identifier t dev prof :
  heap_wf st ->
  device (self st) = Some dev ->
  available E dev = true ->
  stats_per_dim_path (self st) = Some None ->
  _scaling_ranges (self st) = Some (Some prof) ->
  Forall samplable prof ->
  exists a xs st',
    in_scale_vector E (identifier, t) st = (Ok (identifier, Own a), st')
    /\ heap st' !! a = Some (OTensor (T1 dev xs))
    /\ length xs = length prof
    /\ preserves (next_addr st) st st'
    /\ self st' = self st.
Proof.
  intros Hwf Hdev Hav Hpath Hranges Hprof.
  pose proof (framed_in_scale_vector E (next_addr st) (identifier, t) st Hwf
                (Nat.le_refl _)) as [Hpres _].
  revert Hpres. unfold in_scale_vector. cbn [fst].
  step (scaling_ranges_cached E st (Some prof) Hpath Hranges).
  step (ret_eq prof st).
  destruct (samples_ok E prof st Hprof) as (xs & Hxs & Hlen).
  step Hxs. set (st1 := with_np_pos _ st).
  step (torch_tensor_eq xs st1).
  set (a0 := next_addr st1). set (st2 := with_heap _ (S a0) st1).
  assert (Hd2 : device (self st2) = Some dev) by exact Hdev.
  step (getattr_ok "device" device st2 dev Hd2).
  assert (H2 : vec_at st2 (Own a0) CPU (map Float.narrow xs))
    by (subst st2; cbn [vec_at]; simpl_state; apply lookup_insert_eq).
  destruct (decide (CPU = dev)) as [<-|Hne].
  - step (to_same E st2 (Own a0) CPU _ H2). cbn [ret].
    intros Hpres. eexists a0, _, st2. split; [reflexivity|].
    split; [exact H2|]. split; [now rewrite length_map|]. by split.
  - step (to_copy E st2 (Own a0) CPU _ dev H2 Hne Hav). cbn [ret].
    intros Hpres. eexists _, (map Float.narrow xs), _. split; [reflexivity|].
    split; [simpl_state; apply lookup_insert_eq|].
    split; [now rewrite length_map|]. by split.
Qed.

Lemma in_scale_loop_ok E dev prof items st :
  heap_wf st ->
  device (self st) = Some dev ->
  available E dev = true ->
  stats_per_dim_path (self st) = Some None ->
  _scaling_ranges (self st) = Some (Some prof) ->
  Forall samplable prof ->
  exists anon rows' st',
    for_each (in_scale_vector E) items st = (Ok anon, st')
    /\ anon.*1 = items.*1
    /\ Forall2 (fun t row => vec_at st' t dev row) anon.*2 rows'
    /\ Forall (fun row => length row = length prof) rows'
    /\ preserves (next_addr st) st st'
    /\ self st' = self st.
Proof.
  intros Hwf Hdev Hav Hpath Hranges Hprof. revert st Hwf Hdev Hpath Hranges.
  induction items as [|[identifier t] items IH]; intros st Hwf Hdev Hpath Hranges.
  - exists [], [], st. repeat split; try done; constructor.
  - destruct (in_scale_vector_ok E st identifier t dev prof
                Hwf Hdev Hav Hpath Hranges Hprof)
      as (a & xs & st1 & Hrun & Ha & Hlen & Hpres1 & Hself1).
    pose proof Hpres1 as (Hwf1 & Hn1 & Hh1).
    destruct (IH st1 Hwf1) as (anon & rows' & st' & Hloop & Hids & Hvecs & Hdim
                               & Hpres2 & Hself2); try (rewrite Hself1; done).
    exists ((identifier, Own a) :: anon), (xs :: rows'), st'.
    split; [|split; [|split; [|split; [|split]]]].
    + cbn [for_each]. step Hrun. step Hloop. reflexivity.
    + cbn. now rewrite Hids.
    + cbn [fmap list_fmap snd]. constructor; [|exact Hvecs].
      destruct Hpres2 as (_ & _ & Hh2). cbn [vec_at].
      rewrite Hh2; [exact Ha|]. eapply Hwf1, Ha.
    + by constructor.
    + eapply preserves_trans; [exact Hpres1|].
      destruct Hpres2 as (Hwf2 & Hn2 & Hh2). repeat split; [done|done|].
      intros a' Ha'. apply Hh2. lia.
    + congruence.
Qed.

(** The calibrated path, run on a valid batch. *)
Lemma calibrated_run E st b emb_level se vt dev d rows D prof :
  heap_wf st ->
  calibrated_mode E st prof ->
  configured st vt dev ->
  available E dev = true ->
  valid_batch st b se d rows D ->
  Forall samplable prof ->
  exists out vectors rows' st',
    anonymize_embeddings E b emb_level st = (Ok out, st')
    /\ heap st !! out = None
    /\ heap st !! vectors = None
    /\ heap st' !! out
       = Some (OBatch (output_batch vt dev None (se_identifiers se)
                         vectors (se_genders se) (se_original_speakers se)))
    /\ heap st' !! vectors = Some (OTensor (T2 dev rows'))
    /\ length rows' = length (se_identifiers se)
    /\ Forall (fun row => length row = length prof) rows'.
Proof.
  intros Hwf [Hv Hnonempty] [Hvt Hdev] Hav Hbatch Hprof.
  destruct (scaling_ranges E st) as [r st1] eqn:Hsr. cbn in Hv. subst r.
  destruct (scaling_ranges_ok_inv E st _ st1 Hsr)
    as (Hh1 & Hn1 & _ & _ & Hvt1 & Hdev1 & Hpath1 & Hranges1).
  rewrite Hvt in Hvt1. rewrite Hdev in Hdev1.
  set (st1' := with_stdout ("Anonymize vectors in scale!" :: stdout st1) st1).
  assert (Hwf1 : heap_wf st1').
  { intros a o. subst st1'. simpl_state. rewrite Hh1, Hn1. apply Hwf. }
  pose proof (valid_batch_agree st st1' b se d rows D Hh1 Hbatch) as Hbatch1.
  clear Hbatch. rename Hbatch1 into Hbatch.
  destruct (iterate_ok st1' b se d rows D Hbatch) as (items & Hiter & Hids & Hrows).
  destruct (in_scale_loop_ok E dev prof items st1' Hwf1 Hdev1 Hav Hpath1 Hranges1 Hprof)
    as (anon & rows' & st2 & Hloop & Hanon & Hvecs & Hdim & Hpres & Hself).
  pose proof Hpres as (Hwf2 & Hn2 & Hh2).
  assert (Hlen : length rows' = length (se_identifiers se)).
  { apply Forall2_length in Hvecs. rewrite <- Hvecs, <- Hids, <- Hanon.
    now rewrite !length_fmap. }
  assert (Hne : rows' <> []).
  { destruct Hbatch as [_ _ _ Hnil _]. intros ->.
    destruct (se_identifiers se); [done | discriminate]. }
  assert (Hvt2 : vec_type (self st2) = Some vt) by (rewrite Hself; exact Hvt1).
  assert (Hdev2 : device (self st2) = Some dev) by (rewrite Hself; exact Hdev1).
  destruct (new_batch_ok st2 vt dev dev None anon rows' (length prof)
              (se_genders se) (se_original_speakers se) Hwf2 Hvt2 Hdev2 Hvecs Hne Hdim)
    as (st' & Htail & Hout & Hstacked & _).
  exists (next_addr st2), (S (next_addr st2)), rows', st'.
  split; [|split; [|split; [|split; [|split; [|split]]]]]; try done.
  - unfold anonymize_embeddings. step Hsr.
    destruct prof as [|r prof]; [done|]. cbn [truthy].
    assert (Hprint : print "Anonymize vectors in scale!" st1 = (Ok tt, st1'))
      by reflexivity.
    step Hprint. unfold _anonymize_data_in_scale.
    destruct Hbatch as [Hb _ _ _ _].
    step (original_speakers_ok _ _ _ Hb). step (genders_ok _ _ _ Hb).
    step Hiter. step Hloop. exact Htail.
  - apply fresh_above; [done|]. subst st1'. revert Hn2. simpl_state. lia.
  - apply fresh_above; [done|]. subst st1'. revert Hn2. simpl_state. lia.
  - now rewrite Hout, Hanon, Hids.
Qed.

(** ** Facts about the concrete runs *)

Ltac solve_heap_wf :=
  match goal with
  | |- heap_wf ?st =>
      change (map_Forall (fun a _ => (a < next_addr st)%nat) (heap st));
      apply (bool_decide_unpack _); vm_compute; exact I
  end.

Lemma demo_valid_batch s rows D :
  Forall (fun row => length row = D) rows ->
  length rows = 2%nat ->
  valid_batch (with_self s (Demo.state_with rows)) 3%nat Demo.batch CPU rows D.
Proof.
  intros Huni Hlen. split; [reflexivity | | exact Hlen | discriminate | exact Huni].
  exists 2%nat. split; reflexivity.
Qed.

Lemma demo_samplable :
  Forall samplable [(JInt 3, JInt 4); (JInt 1, JInt 2)].
Proof.
  repeat constructor; eexists _, _;
    (split; [reflexivity | split; [reflexivity | vm_compute; reflexivity]]).
Qed.

(** ** What a returned batch is *)

Lemma new_batch_inv (anon : list (string * tref)) lvl g s st out st' :
  (let* vt := getattr "vec_type" vec_type in
   let* dev := getattr "device" device in
   let* anon_embeddings := SpeakerEmbeddings_new vt dev lvl in
   let* stacked := torch_stack anon.*2 in
   set_vectors anon_embeddings anon.*1 stacked g s;;
   ret anon_embeddings) st = (Ok out, st') ->
  exists se', heap st' !! out = Some (OBatch se').
Proof.
  intros H.
  apply bind_inv_ok in H as (vt & s1 & _ & H).
  apply bind_inv_ok in H as (dev & s2 & _ & H).
  apply bind_inv_ok in H as (b & s3 & _ & H).
  apply bind_inv_ok in H as (v & s4 & _ & H).
  apply bind_inv_ok in H as ([] & s5 & Hset & H).
  injection H as <- <-.
  unfold set_vectors in Hset.
  apply bind_inv_ok in Hset as (se0 & s6 & _ & Hstore).
  injection Hstore as <-. simpl_state. rewrite lookup_insert_eq. eauto.
Qed.

Lemma anonymize_embeddings_inv E b lvl st out st' :
  anonymize_embeddings E b lvl st = (Ok out, st') ->
  exists se', heap st' !! out = Some (OBatch se').
Proof.
  unfold anonymize_embeddings. intros H.
  apply bind_inv_ok in H as (r & s1 & _ & H).
  destruct (truthy r).
  - apply bind_inv_ok in H as ([] & s2 & _ & H).
    unfold _anonymize_data_in_scale in H.
    apply bind_inv_ok in H as (sp & s3 & _ & H).
    apply bind_inv_ok in H as (g & s4 & _ & H).
    apply bind_inv_ok in H as (items & s5 & _ & H).
    apply bind_inv_ok in H as (anon & s6 & _ & H).
    eapply new_batch_inv, H.
  - apply bind_inv_ok in H as (sp & s3 & _ & H).
    apply bind_inv_ok in H as (g & s4 & _ & H).
    apply bind_inv_ok in H as (items & s5 & _ & H).
    apply bind_inv_ok in H as (anon & s6 & _ & H).
    eapply new_batch_inv, H.
Qed.

(** ** The claims about [anonymize_embeddings] *)

(** C9: anonymization never changes an object that existed before the call
    -- the input batch, its stacked vectors and its speaker and gender lists
    among them -- whether it returns or raises; and a returned batch is a
    batch object at an address where no object existed before. *)
Theorem anonymize_embeddings_frame E st b emb_level :
  heap_wf st ->
  let run := anonymize_embeddings E b emb_level st in
  (forall a o, heap st !! a = Some o -> heap run.2 !! a = Some o)
  /\ (forall out, run.1 = Ok out ->
        heap st !! out = None
        /\ exists se', heap run.2 !! out = Some (OBatch se')).
Proof.
  intros Hwf. cbv zeta.
  pose proof (framed_anonymize_embeddings E (next_addr st) b emb_level st Hwf
                (Nat.le_refl _)) as Hframe.
  destruct (anonymize_embeddings E b emb_level st) as [r st'] eqn:Hrun.
  cbn [fst snd] in *. destruct Hframe as [(Hwf' & Hn & Hh) Hout]. split.
  - intros a o Ha. rewrite Hh; [done|]. eapply Hwf, Ha.
  - intros out ->. split.
    + apply fresh_above; [done|]. now apply Hout.
    + apply (anonymize_embeddings_inv E b emb_level st out st' Hrun).
Qed.

Lemma anonymize_embeddings_frame_witness :
  let run := anonymize_embeddings Demo.env 3%nat "utt" Demo.st_mask in
  heap run.2 !! 3%nat = Some (OBatch Demo.batch)
  /\ heap run.2 !! 2%nat = Some (OTensor (T2 CPU Demo.rows))
  /\ heap Demo.st_mask !! 8%nat = None.
Proof.
  assert (Hwf : heap_wf Demo.st_mask) by solve_heap_wf.
  destruct (anonymize_embeddings_frame Demo.env Demo.st_mask 3%nat "utt" Hwf)
    as [Hkeep Hnew].
  split; [|split].
  - apply Hkeep. reflexivity.
  - apply Hkeep. reflexivity.
  - apply (Hnew 8%nat). vm_compute. reflexivity.
Defined.

Lemma batch_masks_shape E pos rows :
  Forall2 (fun (row : list spec_float) m =>
             length m = length row /\ Forall (fun z => -40 <= z <= 39) m)
          rows (batch_masks E pos rows).
Proof.
  revert pos. induction rows as [|row rows IH]; intros pos; cbn; constructor.
  - split; [apply length_masks | apply masks_range].
  - apply IH.
Qed.

(** IEEE multiplication by a zero mask: a zero for a finite value, NaN for
    an infinity or a NaN. *)
Lemma mul32_zero_mask x :
  (if Float.is_finite x then Float.is_zero (Float.mul32 x (Float.of_Z32 0))
   else Float.is_nan (Float.mul32 x (Float.of_Z32 0))) = true.
Proof. destruct x; cbn; done. Qed.

(** C2, as the code has it: on the masking path the call returns a batch
    whose vectors are the input vectors multiplied element by element (in
    float32) by the masks drawn from torch's generator, one integer of
    [-40, 39] per dimension; where the mask is 0, the output value is a zero
    if the input value is finite, and NaN if it is an infinity or a NaN. *)
Theorem masking_multiplies_by_masks E st b emb_level se vt dev rows D :
  heap_wf st ->
  masking_mode E st ->
  configured st vt dev ->
  available E dev = true ->
  valid_batch st b se dev rows D ->
  let ms := batch_masks E (torch_pos st) rows in
  (exists out st',
      anonymize_embeddings E b emb_level st = (Ok out, st')
      /\ output_rows st' out dev (zip_with apply_mask rows ms))
  /\ Forall2 (fun (row : list spec_float) m =>
               length m = length row /\ Forall (fun z => -40 <= z <= 39) m)
            rows ms
  /\ forall (row : list spec_float) (m : list Z) i x,
       row !! i = Some x -> m !! i = Some 0 ->
       exists y, apply_mask row m !! i = Some y
                 /\ (if Float.is_finite x then Float.is_zero y
                     else Float.is_nan y) = true.
Proof.
  intros Hwf Hmode Hconf Hav Hbatch ms. split; [|split].
  - destruct (masking_run E st b emb_level se vt dev rows D
                Hwf Hmode Hconf Hav Hbatch)
      as (out & vectors & st' & Hrun & _ & _ & Hout & Hvec).
    exists out, st'. split; [exact Hrun|].
    eexists _, vectors. split; [exact Hout|]. split; [reflexivity | exact Hvec].
  - apply batch_masks_shape.
  - intros row m i x Hx Hm.
    exists (Float.mul32 x (Float.of_Z32 0)). split; [|apply mul32_zero_mask].
    unfold apply_mask. rewrite lookup_zip_with, Hx. cbn.
    rewrite list_lookup_fmap, Hm. reflexivity.
Qed.

Lemma masking_multiplies_by_masks_witness :
  exists out st',
    anonymize_embeddings Demo.env 3%nat "utt" Demo.st_mask = (Ok out, st')
    /\ output_rows st' out CPU
         (zip_with apply_mask Demo.rows (batch_masks Demo.env 0 Demo.rows)).
Proof.
  refine (proj1 (masking_multiplies_by_masks Demo.env Demo.st_mask 3%nat "utt"
                   Demo.batch "xvector" CPU Demo.rows 3 _ _ _ _ _)).
  - solve_heap_wf.
  - exists None. split; reflexivity.
  - split; reflexivity.
  - reflexivity.
  - apply demo_valid_batch; [repeat constructor | reflexivity].
Defined.

(** C2 as stated fails where the input value is infinite: the mask drawn for
    the first dimension of the first vector is 0, the input value there is
    +infinity, and the output value is NaN, not 0. *)
Lemma zero_mask_on_infinity_is_nan :
  masking_mode Demo.env Demo.st_inf
  /\ valid_batch Demo.st_inf 3%nat Demo.batch CPU Demo.rows_inf 3
  /\ Demo.rows_inf !! 0%nat ≫= (.!! 0%nat) = Some (S754_infinity false)
  /\ batch_masks Demo.env (torch_pos Demo.st_inf) Demo.rows_inf !! 0%nat
       ≫= (.!! 0%nat) = Some 0
  /\ exists st' rows',
      anonymize_embeddings Demo.env 3%nat "spk" Demo.st_inf = (Ok 8%nat, st')
      /\ output_rows st' 8%nat CPU rows'
      /\ rows' !! 0%nat ≫= (.!! 0%nat) = Some S754_nan
      /\ Float.is_zero S754_nan = false.
Proof.
  split; [exists None; split; reflexivity|].
  split; [apply demo_valid_batch; [repeat constructor | reflexivity]|].
  split; [reflexivity|]. split; [reflexivity|].
  eexists _, _. split; [vm_compute; reflexivity|]. split.
  { eexists _, 9%nat. split; [vm_compute; reflexivity|].
    split; [reflexivity | vm_compute; reflexivity]. }
  split; reflexivity.
Qed.

Lemma masked_rows_uniform E pos rows D :
  Forall (fun row => length row = D) rows ->
  Forall (fun row => length row = D) (masked_rows E pos rows).
Proof.
  intros Hu. revert pos. unfold masked_rows.
  induction Hu as [|row rows Hrow _ IH]; intros pos; cbn; constructor.
  - unfold apply_mask. rewrite length_zip_with, length_map, length_masks. lia.
  - apply IH.
Qed.

(** C4, as the code has it: for a valid batch of [D]-dimensional vectors,
    every vector of the returned batch is [D]-dimensional on the masking
    path, and on the calibrated path when the loaded profile has [D]
    entries. *)
Theorem output_dimension E st b emb_level se vt dev d rows D :
  heap_wf st ->
  configured st vt dev ->
  available E dev = true ->
  valid_batch st b se d rows D ->
  (masking_mode E st /\ d = dev)
  \/ (exists prof, calibrated_mode E st prof /\ Forall samplable prof
                   /\ length prof = D) ->
  exists out st' rows',
    anonymize_embeddings E b emb_level st = (Ok out, st')
    /\ output_rows st' out dev rows'
    /\ Forall (fun row => length row = D) rows'.
Proof.
  intros Hwf Hconf Hav Hbatch [[Hmode ->]|(prof & Hmode & Hprof & <-)].
  - destruct (masking_run E st b emb_level se vt dev rows D
                Hwf Hmode Hconf Hav Hbatch)
      as (out & vectors & st' & Hrun & _ & _ & Hout & Hvec).
    exists out, st', (masked_rows E (torch_pos st) rows).
    split; [exact Hrun|]. split.
    + eexists _, vectors. split; [exact Hout|]. split; [reflexivity | exact Hvec].
    + apply masked_rows_uniform. now destruct Hbatch.
  - destruct (calibrated_run E st b emb_level se vt dev d rows (length prof) prof
                Hwf Hmode Hconf Hav Hbatch Hprof)
      as (out & vectors & rows' & st' & Hrun & _ & _ & Hout & Hvec & _ & Hdim).
    exists out, st', rows'. split; [exact Hrun|]. split; [|exact Hdim].
    eexists _, vectors. split; [exact Hout|]. split; [reflexivity | exact Hvec].
Qed.

Lemma output_dimension_witness :
  exists out st' rows',
    anonymize_embeddings Demo.env 3%nat "utt" Demo.st_mask = (Ok out, st')
    /\ output_rows st' out CPU rows'
    /\ Forall (fun row => length row = 3%nat) rows'.
Proof.
  apply (output_dimension Demo.env Demo.st_mask 3%nat "utt" Demo.batch
           "xvector" CPU CPU Demo.rows 3).
  - solve_heap_wf.
  - split; reflexivity.
  - reflexivity.
  - apply demo_valid_batch; [repeat constructor | reflexivity].
  - left. split; [|reflexivity]. exists None. split; reflexivity.
Defined.

(** C4 as stated fails on the calibrated path: the batch holds
    three-dimensional vectors, the loaded profile has two entries, and the
    returned batch holds two-dimensional vectors. *)
Lemma calibrated_output_has_profile_dimension :
  valid_batch Demo.st_cal 3%nat Demo.batch CPU Demo.rows 3
  /\ calibrated_mode Demo.env Demo.st_cal [(JInt 3, JInt 4); (JInt 1, JInt 2)]
  /\ exists st' rows',
      anonymize_embeddings Demo.env 3%nat "spk" Demo.st_cal = (Ok 6%nat, st')
      /\ output_rows st' 6%nat CPU rows'
      /\ Forall (fun row => length row = 2%nat) rows'
      /\ ~ Forall (fun row => length row = 3%nat) rows'.
Proof.
  split; [apply demo_valid_batch; [repeat constructor | reflexivity]|].
  split; [split; [vm_compute; reflexivity | discriminate]|].
  eexists _, _. split; [vm_compute; reflexivity|]. split.
  { eexists _, 7%nat. split; [vm_compute; reflexivity|].
    split; [reflexivity | vm_compute; reflexivity]. }
  split; [repeat constructor|].
  intros H. apply Forall_cons in H as [H _]. discriminate H.
Qed.

(** C1, as the code has it: on the calibrated path nothing compares the
    profile with the batch; on a valid batch of any dimension [D] the call
    returns, and every vector of the returned batch has as many dimensions
    as the profile has entries. *)
Theorem calibrated_ignores_batch_dimension
    E st b emb_level se vt dev d rows D prof :
  heap_wf st ->
  configured st vt dev ->
  available E dev = true ->
  valid_batch st b se d rows D ->
  calibrated_mode E st prof ->
  Forall samplable prof ->
  exists out st' rows',
    anonymize_embeddings E b emb_level st = (Ok out, st')
    /\ output_rows st' out dev rows'
    /\ length rows' = length (se_identifiers se)
    /\ Forall (fun row => length row = length prof) rows'.
Proof.
  intros Hwf Hconf Hav Hbatch Hmode Hprof.
  destruct (calibrated_run E st b emb_level se vt dev d rows D prof
              Hwf Hmode Hconf Hav Hbatch Hprof)
    as (out & vectors & rows' & st' & Hrun & _ & _ & Hout & Hvec & Hlen & Hdim).
  exists out, st', rows'. split; [exact Hrun|].
  split; [|split; [exact Hlen | exact Hdim]].
  eexists _, vectors. split; [exact Hout|]. split; [reflexivity | exact Hvec].
Qed.

Lemma calibrated_ignores_batch_dimension_witness :
  exists out st' rows',
    anonymize_embeddings Demo.env 3%nat "spk" Demo.st_cal = (Ok out, st')
    /\ output_rows st' out CPU rows'
    /\ length rows' = 2%nat
    /\ Forall (fun row => length row = 2%nat) rows'.
Proof.
  apply (calibrated_ignores_batch_dimension Demo.env Demo.st_cal 3%nat "spk"
           Demo.batch "xvector" CPU CPU Demo.rows 3
           [(JInt 3, JInt 4); (JInt 1, JInt 2)]).
  - solve_heap_wf.
  - split; reflexivity.
  - reflexivity.
  - apply demo_valid_batch; [repeat constructor | reflexivity].
  - split; [vm_compute; reflexivity | discriminate].
  - exact demo_samplable.
Defined.

(** C1 as stated fails: in calibrated mode with a profile of two entries and
    a batch of three-dimensional vectors, the call raises nothing and
    returns a batch. *)
Lemma profile_length_mismatch_returns :
  calibrated_mode Demo.env Demo.st_cal [(JInt 3, JInt 4); (JInt 1, JInt 2)]
  /\ valid_batch Demo.st_cal 3%nat Demo.batch CPU Demo.rows 3
  /\ length [(JInt 3, JInt 4); (JInt 1, JInt 2)] <> 3%nat
  /\ (anonymize_embeddings Demo.env 3%nat "spk" Demo.st_cal).1 = Ok 6%nat.
Proof.
  split; [split; [vm_compute; reflexivity | discriminate]|].
  split; [apply demo_valid_batch; [repeat constructor | reflexivity]|].
  split; [discriminate | vm_compute; reflexivity].
Qed.

(** C7 (evaluation of the code): the masking path builds the output batch
    with the caller's [emb_level]; the calibrated path builds it without
    one, so the batch gets the class default whatever the caller passed. *)
Theorem emb_level_forwarding E st b emb_level se vt dev d rows D :
  heap_wf st ->
  configured st vt dev ->
  available E dev = true ->
  valid_batch st b se d rows D ->
  (masking_mode E st -> d = dev ->
   exists out st' se',
     anonymize_embeddings E b emb_level st = (Ok out, st')
     /\ heap st' !! out = Some (OBatch se')
     /\ se_emb_level se' = Some emb_level)
  /\ (forall prof, calibrated_mode E st prof -> Forall samplable prof ->
      exists out st' se',
        anonymize_embeddings E b emb_level st = (Ok out, st')
        /\ heap st' !! out = Some (OBatch se')
        /\ se_emb_level se' = None).
Proof.
  intros Hwf Hconf Hav Hbatch. split.
  - intros Hmode ->.
    destruct (masking_run E st b emb_level se vt dev rows D
                Hwf Hmode Hconf Hav Hbatch)
      as (out & vectors & st' & Hrun & _ & _ & Hout & _).
    eexists out, st', _. split; [exact Hrun|]. split; [exact Hout | reflexivity].
  - intros prof Hmode Hprof.
    destruct (calibrated_run E st b emb_level se vt dev d rows D prof
                Hwf Hmode Hconf Hav Hbatch Hprof)
      as (out & vectors & rows' & st' & Hrun & _ & _ & Hout & _).
    eexists out, st', _. split; [exact Hrun|]. split; [exact Hout | reflexivity].
Qed.

Lemma emb_level_forwarding_witness :
  exists out st' se',
    anonymize_embeddings Demo.env 3%nat "utt" Demo.st_cal = (Ok out, st')
    /\ heap st' !! out = Some (OBatch se')
    /\ se_emb_level se' = None.
Proof.
  refine (proj2 (emb_level_forwarding Demo.env Demo.st_cal 3%nat "utt"
                   Demo.batch "xvector" CPU CPU Demo.rows 3 _ _ _ _)
            [(JInt 3, JInt 4); (JInt 1, JInt 2)] _ _).
  - solve_heap_wf.
  - split; reflexivity.
  - reflexivity.
  - apply demo_valid_batch; [repeat constructor | reflexivity].
  - split; [vm_compute; reflexivity | discriminate].
  - exact demo_samplable.
Defined.

(** * Further properties of the code *)

(** ** The loader: when it succeeds, how it fails *)

Lemma for_each_lift_run {A B} (f : A -> result B) xs :
  exists r, forall st, for_each (fun x => lift (f x)) xs st = (r, st).
Proof.
  induction xs as [|x xs [r IH]].
  - by exists (Ok []).
  - destruct (f x) as [y|e] eqn:Hy.
    + destruct r as [ys|e].
      * exists (Ok (y :: ys)). intros st. cbn [for_each].
        unfold bind at 1, lift at 1. rewrite Hy. unfold bind. now rewrite IH.
      * exists (Raise e). intros st. cbn [for_each].
        unfold bind at 1, lift at 1. rewrite Hy. unfold bind. now rewrite IH.
    + exists (Raise e). intros st. cbn [for_each].
      unfold bind at 1, lift at 1. now rewrite Hy.
Qed.

Lemma for_each_lift_inv {A B} (f : A -> result B) xs st ys st' :
  for_each (fun x => lift (f x)) xs st = (Ok ys, st') ->
  Forall2 (fun x y => f x = Ok y) xs ys.
Proof.
  revert ys st'. induction xs as [|x xs IH]; intros ys st'.
  - intros [= <- _]. constructor.
  - cbn [for_each]. intros H.
    apply bind_inv_ok in H as (y & s1 & Hy & H).
    apply bind_inv_ok in H as (ys' & s2 & Hys & H).
    injection H as <- _. injection Hy as Hy <-.
    constructor; [exact Hy | eapply IH, Hys].
Qed.

(** The loader's result depends on the files alone; its only effect is the
    log entry of a successful open. *)
Lemma load_scaling_ranges_run E p :
  exists r, forall st,
    _load_scaling_ranges E p st
    = (r, match fs E !! default "stats_per_dim.json" p with
          | Some _ => with_reads (default "stats_per_dim.json" p :: reads st) st
          | None => st
          end).
Proof.
  unfold _load_scaling_ranges, open.
  replace (match p with None => "stats_per_dim.json" | Some q => q end)
    with (default "stats_per_dim.json" p) by now destruct p.
  set (path := default _ p).
  destruct (fs E !! path) as [f|]; [|by eexists].
  destruct f as [|j]; [by eexists|].
  destruct j; try by eexists.
  destruct (PySorted.sorted (fun x : string * json => PyInt.int (interpreter E) x.1) items)
    as [o|] eqn:Hs.
  - destruct (for_each_lift_run range_of o) as [r Hr]. exists r. intros st.
    unfold bind at 1 2. cbn [modify ret]. unfold bind at 1. cbn [json_load ret].
    unfold bind at 1. cbn [dict_items ret]. unfold bind at 1. rewrite Hs.
    cbn [lift_opt ret]. apply Hr.
  - exists (Raise ValueError). intros st.
    unfold bind at 1 2. cbn [modify ret]. unfold bind at 1. cbn [json_load ret].
    unfold bind at 1. cbn [dict_items ret]. unfold bind at 1. now rewrite Hs.
Qed.

Lemma decorate_keys {A} (key : A -> option Z) (xs : list A) d :
  PySorted.decorate key xs = Some d -> Forall (fun a => is_Some (key a)) xs.
Proof.
  intros H. destruct (decorate_spec key xs d H) as [<- Hd].
  apply Forall_map. eapply Forall_impl; [exact Hd|]. intros kx ->. eauto.
Qed.

Lemma decorate_fails {A} (key : A -> option Z) (xs : list A) :
  Exists (fun a => key a = None) xs -> PySorted.decorate key xs = None.
Proof.
  induction 1 as [a xs Ha|a xs _ IH]; cbn.
  - now rewrite Ha.
  - rewrite IH. now destruct (key a).
Qed.

(** X1: on a file holding a JSON object, the loader returns a profile
    exactly when [int] accepts every key and every value is an object with
    [min] and [max]; it never returns a partial profile: a returned profile
    has one range per item of the parsed object. *)
Theorem load_scaling_ranges_succeeds_iff E path items st :
  fs E !! path = Some (JSONText (JObj items)) ->
  (is_ok (_load_scaling_ranges E (Some path) st).1 = true
   <-> Forall (well_formed_entry E) items)
  /\ forall prof, (_load_scaling_ranges E (Some path) st).1 = Ok prof ->
       length prof = length items.
Proof.
  intros Hfile.
  assert (Hinv : forall prof, (_load_scaling_ranges E (Some path) st).1 = Ok prof ->
            exists ordered,
              PySorted.sorted (fun x : string * json => PyInt.int (interpreter E) x.1) items
              = Some ordered
              /\ Forall2 (fun kv r => range_of kv = Ok r) ordered prof).
  { intros prof. unfold _load_scaling_ranges, open. rewrite Hfile.
    unfold bind at 1 2. cbn [modify ret]. unfold bind at 1. cbn [json_load ret].
    unfold bind at 1. cbn [dict_items ret]. unfold bind at 1.
    destruct (PySorted.sorted _ items) as [o|]; [|discriminate].
    cbn [lift_opt ret]. intros H. exists o. split; [done|].
    destruct (for_each _ o _) as [r s1] eqn:Hrun. cbn in H. subst r.
    eapply for_each_lift_inv, Hrun. }
  split; [split|].
  - intros Hok.
    destruct (_load_scaling_ranges E (Some path) st).1 as [prof|] eqn:Hrun;
      [|discriminate].
    destruct (Hinv prof eq_refl) as (ordered & Hsorted & Hprof).
    destruct (sorted_spec _ _ _ Hsorted) as [Hperm _].
    assert (Hkeys : Forall (fun kv : string * json => is_Some (PyInt.int (interpreter E) kv.1)) items).
    { unfold PySorted.sorted in Hsorted.
      destruct (PySorted.decorate _ items) as [d|] eqn:Hd; [|discriminate].
      eapply decorate_keys, Hd. }
    assert (Hranges : Forall (fun kv => is_ok (range_of kv) = true) items).
    { rewrite <- Hperm. eapply Forall2_Forall_l; [exact Hprof|].
      apply Forall_true. intros r kv ->. reflexivity. }
    apply Forall_and. by split.
  - intros Hwf.
    destruct (load_scaling_ranges_ok E (Some path) items st Hfile Hwf)
      as (ordered & prof & Hrun & _). now rewrite Hrun.
  - intros prof Hrun. destruct (Hinv prof Hrun) as (ordered & Hsorted & Hprof).
    destruct (sorted_spec _ _ _ Hsorted) as [Hperm _].
    rewrite <- (Forall2_length _ _ _ Hprof). now rewrite Hperm.
Qed.

Lemma load_scaling_ranges_succeeds_iff_witness :
  is_ok (_load_scaling_ranges Demo.env (Some "stats.json") Demo.st0).1 = true
  <-> Forall (well_formed_entry Demo.env)
        [("10", JObj [("min", JInt 1); ("max", JInt 2)]);
         ("2", JObj [("min", JInt 3); ("max", JInt 4)])].
Proof.
  refine (proj1 (load_scaling_ranges_succeeds_iff Demo.env "stats.json" _
                   Demo.st0 _)).
  vm_compute. reflexivity.
Defined.

(** X2: a key that [int] refuses makes the loader raise
    [ValueError], after the file was opened and before any [min] or [max] is
    looked up: the keys of all entries are converted first. *)
Theorem load_scaling_ranges_bad_key E path items st :
  fs E !! path = Some (JSONText (JObj items)) ->
  Exists (fun kv : string * json => PyInt.int (interpreter E) kv.1 = None) items ->
  _load_scaling_ranges E (Some path) st
  = (Raise ValueError, with_reads (path :: reads st) st).
Proof.
  intros Hfile Hbad. unfold _load_scaling_ranges, open. rewrite Hfile.
  unfold bind at 1 2. cbn [modify ret]. unfold bind at 1. cbn [json_load ret].
  unfold bind at 1. cbn [dict_items ret]. unfold bind at 1.
  unfold PySorted.sorted.
  now rewrite (decorate_fails (fun x : string * json => PyInt.int (interpreter E) x.1) items Hbad).
Qed.

Lemma load_scaling_ranges_bad_key_witness :
  _load_scaling_ranges
    {| fs := {[ "s.json" := JSONText (JObj [("1", JNull); ("dim2", JNull)]) ]};
       cuda_count := 0; interpreter := Demo.cpython;
       torch_raw := fun _ => 0; np_raw := fun _ => 0 |}
    (Some "s.json") Demo.st0
  = (Raise ValueError, with_reads ["s.json"] Demo.st0).
Proof.
  apply (load_scaling_ranges_bad_key _ "s.json" [("1", JNull); ("dim2", JNull)]).
  - vm_compute. reflexivity.
  - apply Exists_cons_tl, Exists_cons_hd. vm_compute. reflexivity.
Defined.

(** ** Python's [sorted] is stable *)

Lemma insert_filter {A} (k : Z) (x : Z * A) (l : list (Z * A)) :
  filter (fun y => y.1 = k) (PySorted.insert x l)
  = filter (fun y => y.1 = k) (x :: l).
Proof.
  induction l as [|y l IH]; cbn [PySorted.insert]; [done|].
  destruct (Z.leb_spec x.1 y.1) as [Hle|Hgt]; [done|].
  rewrite filter_cons, IH, !filter_cons.
  destruct (decide (y.1 = k)), (decide (x.1 = k)); try done. lia.
Qed.

Lemma sort_filter {A} (k : Z) (l : list (Z * A)) :
  filter (fun y => y.1 = k) (PySorted.sort l) = filter (fun y => y.1 = k) l.
Proof.
  induction l as [|x l IH]; cbn [PySorted.sort]; [done|].
  rewrite insert_filter, !filter_cons, IH. done.
Qed.

Lemma filter_undecorate {A} (key : A -> option Z) (k : Z) (l : list (Z * A)) :
  Forall (fun kx => key kx.2 = Some kx.1) l ->
  filter (fun a => key a = Some k) (map snd l)
  = map snd (filter (fun y => y.1 = k) l).
Proof.
  induction 1 as [|kx l Hkx _ IH]; [done|].
  cbn [map]. rewrite !filter_cons, IH. rewrite Hkx.
  destruct (decide (Some kx.1 = Some k)) as [[= Heq]|Hne],
           (decide (kx.1 = k)) as [Heq'|Hne']; try done.
  - exfalso. apply Hne. now rewrite Heq'.
Qed.

(** X3: [sorted] is stable: the items whose keys have the same numeric
    value [k] (such as ["1"] and ["01"]) come out in the order they had in
    the input. *)
Theorem sorted_stable {A} (key : A -> option Z) (xs ys : list A) (k : Z) :
  PySorted.sorted key xs = Some ys ->
  filter (fun a => key a = Some k) ys = filter (fun a => key a = Some k) xs.
Proof.
  unfold PySorted.sorted.
  destruct (PySorted.decorate key xs) as [d|] eqn:Hd; [|discriminate].
  intros [= <-]. destruct (decorate_spec key xs d Hd) as [Hxs Hkeys].
  rewrite <- Hxs.
  rewrite (filter_undecorate key k (PySorted.sort d)) by now rewrite sort_perm.
  rewrite (filter_undecorate key k d Hkeys). now rewrite sort_filter.
Qed.

Lemma sorted_stable_witness :
  filter (fun x : string * json => PyInt.int Demo.cpython x.1 = Some 1)
    [("01", JInt 7); ("1", JInt 8); ("2", JNull)]
  = filter (fun x : string * json => PyInt.int Demo.cpython x.1 = Some 1)
      [("2", JNull); ("01", JInt 7); ("1", JInt 8)].
Proof.
  apply (sorted_stable (fun x : string * json => PyInt.int Demo.cpython x.1)
           [("2", JNull); ("01", JInt 7); ("1", JInt 8)]).
  vm_compute. reflexivity.
Defined.

(** ** The property when the load fails, or loads nothing *)

Lemma scaling_ranges_pending_fail E st p e st1 :
  stats_per_dim_path (self st) = Some (Some p) ->
  _load_scaling_ranges E (Some p) st = (Raise e, st1) ->
  scaling_ranges E st = (Raise e, st1).
Proof.
  intros Hp Hload. unfold scaling_ranges.
  step (getattr_ok "stats_per_dim_path" stats_per_dim_path st _ Hp).
  apply bind_raise. now apply bind_raise.
Qed.

(** X4: when the pending path names no file, reading [scaling_ranges]
    raises [FileNotFoundError] and changes nothing, and so does
    [anonymize_embeddings]: there is no fallback to the masking path. *)
Theorem missing_stats_file_raises E st p b emb_level :
  stats_per_dim_path (self st) = Some (Some p) ->
  fs E !! p = None ->
  scaling_ranges E st = (Raise (FileNotFoundError p), st)
  /\ anonymize_embeddings E b emb_level st = (Raise (FileNotFoundError p), st).
Proof.
  intros Hp Hfile.
  assert (Hload : _load_scaling_ranges E (Some p) st
                  = (Raise (FileNotFoundError p), st)).
  { unfold _load_scaling_ranges, open. now rewrite Hfile. }
  pose proof (scaling_ranges_pending_fail E st p _ st Hp Hload) as Hsr.
  split; [exact Hsr|]. unfold anonymize_embeddings. now apply bind_raise.
Qed.

Lemma missing_stats_file_raises_witness :
  let st := (RandomAnonymizer_new CPU "xvector" None true (Some "absent.json")
               Demo.st0).2 in
  anonymize_embeddings Demo.env 3%nat "spk" st
  = (Raise (FileNotFoundError "absent.json"), st).
Proof.
  refine (proj2 (missing_stats_file_raises Demo.env _ "absent.json" 3%nat "spk"
                   _ _)).
  - reflexivity.
  - vm_compute. reflexivity.
Defined.

(** X5: a failed read of [scaling_ranges] is not remembered: the
    attributes are as before, so the next read fails in the same way; and
    when the pending file exists, every such read opens it again. *)
Theorem failed_load_is_retried E st e st' :
  scaling_ranges E st = (Raise e, st') ->
  self st' = self st
  /\ (scaling_ranges E st').1 = Raise e
  /\ forall p, stats_per_dim_path (self st) = Some (Some p) ->
       is_Some (fs E !! p) ->
       reads st' = p :: reads st
       /\ reads (scaling_ranges E st').2 = p :: p :: reads st.
Proof.
  destruct (stats_per_dim_path (self st)) as [[p|]|] eqn:Hp.
  - destruct (load_scaling_ranges_run E (Some p)) as [r Hr].
    change (default "stats_per_dim.json" (Some p)) with p in Hr.
    destruct r as [prof|e0].
    + rewrite (scaling_ranges_pending E st p prof _ Hp (Hr st)). discriminate.
    + rewrite (scaling_ranges_pending_fail E st p e0 _ Hp (Hr st)).
      intros [= <- <-].
      set (st1 := match fs E !! p with
                  | Some _ => with_reads (p :: reads st) st
                  | None => st
                  end).
      assert (Hself : self st1 = self st) by (subst st1; now destruct (fs E !! p)).
      assert (Hp1 : stats_per_dim_path (self st1) = Some (Some p))
        by now rewrite Hself.
      rewrite (scaling_ranges_pending_fail E st1 p e0 _ Hp1 (Hr st1)).
      split; [done|]. split; [done|].
      intros q [= <-] [f Hf]. subst st1. cbn [snd]. rewrite !Hf.
      split; reflexivity.
  - destruct (_scaling_ranges (self st)) as [v|] eqn:Hr.
    + rewrite (scaling_ranges_cached E st v Hp Hr). discriminate.
    + rewrite (scaling_ranges_unset E st Hp Hr). intros [= <- <-].
      rewrite (scaling_ranges_unset E st Hp Hr). by repeat split.
  - assert (Hsr : scaling_ranges E st
                  = (Raise (AttributeError "stats_per_dim_path"), st)).
    { unfold scaling_ranges, getattr, bind, get, lift_opt. cbn. now rewrite Hp. }
    rewrite Hsr. intros [= <- <-]. rewrite Hsr. by repeat split.
Qed.

Lemma failed_load_is_retried_witness :
  let E := {| fs := {[ "bad.json" := NotJSON ]}; cuda_count := 0;
              interpreter := Demo.cpython;
              torch_raw := fun _ => 0; np_raw := fun _ => 0 |} in
  let st := (RandomAnonymizer_new CPU "xvector" None true (Some "bad.json")
               Demo.st0).2 in
  reads (scaling_ranges E (scaling_ranges E st).2).2 = ["bad.json"; "bad.json"].
Proof.
  intros E st.
  destruct (failed_load_is_retried E st JSONDecodeError (scaling_ranges E st).2)
    as (_ & _ & Hreads).
  - vm_compute. reflexivity.
  - apply (Hreads "bad.json"); [reflexivity | vm_compute; eauto].
Defined.

(** X6: a statistics file holding the empty object loads as an empty
    profile, which [anonymize_embeddings] treats like no profile: the
    strategy built for calibrated mode takes the masking path. *)
Theorem empty_stats_file_masks E st p :
  stats_per_dim_path (self st) = Some (Some p) ->
  fs E !! p = Some (JSONText (JObj [])) ->
  (scaling_ranges E st).1 = Ok (Some []) /\ masking_mode E st.
Proof.
  intros Hp Hfile.
  destruct (load_scaling_ranges_ok E (Some p) [] st Hfile (Forall_nil_2 _))
    as (ordered & prof & Hrun & Hperm & _ & Hprof).
  apply Permutation_nil_r in Hperm as ->.
  apply Forall2_nil_inv_l in Hprof as ->.
  rewrite (scaling_ranges_pending E st p [] _ Hp Hrun).
  split; [reflexivity|]. exists (Some []).
  rewrite (scaling_ranges_pending E st p [] _ Hp Hrun). by split.
Qed.

Lemma empty_stats_file_masks_witness :
  let E := {| fs := {[ "empty.json" := JSONText (JObj []) ]}; cuda_count := 0;
              interpreter := Demo.cpython;
              torch_raw := fun _ => 0; np_raw := fun _ => 0 |} in
  masking_mode E (RandomAnonymizer_new CPU "xvector" None true (Some "empty.json")
                    Demo.st0).2.
Proof.
  intros E.
  refine (proj2 (empty_stats_file_masks E _ "empty.json" _ _)).
  - reflexivity.
  - vm_compute. reflexivity.
Defined.

(** ** Batches the masking and calibrated paths reject *)

Lemma bind_fails_after {A B} (m : M A) (k : A -> M B) st :
  (forall a st1, m st = (Ok a, st1) -> is_ok (k a st1).1 = false) ->
  is_ok (bind m k st).1 = false.
Proof. unfold bind. destruct (m st) as [[a|e] st1]; auto. Qed.

Lemma heap_same_run {A} (m : M A) st r st' :
  heap_same m -> m st = (r, st') -> heap st' = heap st.
Proof. intros Hm Hrun. destruct (Hm st) as [Hh _]. now rewrite Hrun in Hh. Qed.

Lemma iterate_no_items st b se items st' :
  heap st !! b = Some (OBatch se) ->
  se_identifiers se = [] ->
  iterate b st = (Ok items, st') -> items = [].
Proof.
  intros Hb Hids. unfold iterate. step (load_batch_ok _ _ _ Hb).
  destruct (se_vectors se) as [v|]; [|discriminate].
  unfold lift_opt at 1. step (ret_eq v st).
  unfold load, bind, get, lift_opt. cbn.
  destruct (heap st !! v) as [[|[|d rows]|]|]; try discriminate.
  rewrite Hids. cbn. now intros [= <- _].
Qed.

(** Whatever the loop body, nothing is returned for a batch without
    identifiers: [torch.stack] rejects the empty list. *)
Lemma empty_batch_body_fails (body : string * tref -> M (string * tref))
    lvl st b se :
  heap st !! b = Some (OBatch se) ->
  se_identifiers se = [] ->
  is_ok ((let* speakers := original_speakers b in
          let* genders := genders b in
          let* items := iterate b in
          let* anon := for_each body items in
          let identifiers := anon.*1 in
          let anon_vectors := anon.*2 in
          let* vt := getattr "vec_type" vec_type in
          let* dev := getattr "device" device in
          let* anon_embeddings := SpeakerEmbeddings_new vt dev lvl in
          let* stacked := torch_stack anon_vectors in
          set_vectors anon_embeddings identifiers stacked genders speakers;;
          ret anon_embeddings) st).1 = false.
Proof.
  intros Hb Hids.
  apply bind_fails_after. intros sp s1 H1.
  pose proof (heap_same_run _ _ _ _ (heap_same_original_speakers b) H1) as Hh1.
  apply bind_fails_after. intros g s2 H2.
  pose proof (heap_same_run _ _ _ _ (heap_same_genders b) H2) as Hh2.
  apply bind_fails_after. intros items s3 H3.
  assert (Hb2 : heap s2 !! b = Some (OBatch se)) by now rewrite Hh2, Hh1.
  pose proof (iterate_no_items s2 b se items s3 Hb2 Hids H3) as ->.
  cbn [for_each]. step (ret_eq (@nil (string * tref)) s3).
  apply bind_fails_after. intros vt s4 _.
  apply bind_fails_after. intros dev s5 _.
  apply bind_fails_after. intros out s6 _.
  reflexivity.
Qed.

(** X7: for a batch without identifiers [anonymize_embeddings] returns
    nothing, in either mode. *)
Theorem empty_batch_raises E st b emb_level se :
  heap st !! b = Some (OBatch se) ->
  se_identifiers se = [] ->
  is_ok (anonymize_embeddings E b emb_level st).1 = false.
Proof.
  intros Hb Hids. unfold anonymize_embeddings.
  apply bind_fails_after. intros v st1 Hsr.
  pose proof (heap_same_run _ _ _ _ (heap_same_scaling_ranges E) Hsr) as Hh1.
  destruct (truthy v).
  - apply bind_fails_after. intros [] st2 Hprint.
    injection Hprint as <-. unfold _anonymize_data_in_scale.
    apply (empty_batch_body_fails (in_scale_vector E) None _ b se); [|done].
    now rewrite <- Hh1 in Hb.
  - apply (empty_batch_body_fails (masked_vector E) (Some emb_level) _ b se);
      [|done].
    now rewrite <- Hh1 in Hb.
Qed.

Lemma empty_batch_raises_witness :
  let st :=
    with_heap {[ 0%nat := OTensor (T2 CPU []);
                 1%nat := OBatch (output_batch "xvector" CPU None [] 0%nat None None) ]}
              2%nat Demo.st_cal in
  is_ok (anonymize_embeddings Demo.env 1%nat "spk" st).1 = false.
Proof.
  apply (empty_batch_raises Demo.env _ 1%nat "spk"
           (output_batch "xvector" CPU None [] 0%nat None None));
    reflexivity.
Defined.

Lemma mul_mismatch st a b d d' xs ys :
  vec_at st a d xs -> vec_at st b d' ys -> d <> d' ->
  mul a b st = (Raise (RuntimeError "device mismatch"), st).
Proof.
  intros Ha Hb Hne. unfold mul.
  step (read_vec_ok _ _ _ _ Ha). step (read_vec_ok _ _ _ _ Hb). cbn [fst snd].
  now rewrite decide_False.
Qed.

(** One iteration of the masking loop on a vector that lives on another
    device than the anonymizer's. *)
Lemma masked_vector_mismatch E st identifier t dev d row :
  heap_wf st ->
  device (self st) = Some dev ->
  available E dev = true ->
  vec_at st t d row ->
  d <> dev ->
  (masked_vector E (identifier, t) st).1 = Raise (RuntimeError "device mismatch").
Proof.
  intros Hwf Hdev Hav Hrow Hne.
  unfold masked_vector, float. cbn [fst snd].
  step (shape0_ok _ _ _ _ Hrow).
  step (torch_zeros_eq (length row) st).
  step (ret_eq (Own (next_addr st))
          (with_heap (<[next_addr st := OTensor (T1 CPU (replicate (length row) Float.zero32))]>
                        (heap st)) (S (next_addr st)) st)).
  set (a0 := next_addr st).
  set (st1 := with_heap _ (S a0) st).
  assert (H0 : heap st1 !! a0
               = Some (OTensor (T1 CPU (replicate (length row) Float.zero32))))
    by (subst st1; simpl_state; apply lookup_insert_eq).
  step (random__ok E st1 a0 CPU _ (-40) 40 H0).
  rewrite length_replicate.
  set (mask := map _ (seq (torch_pos st1) (length row)) : list spec_float).
  set (st2 := with_heap _ (next_addr st1) _).
  assert (Hd2 : device (self st2) = Some dev) by exact Hdev.
  step (getattr_ok "device" device st2 dev Hd2).
  assert (H2 : vec_at st2 (Own a0) CPU mask)
    by (subst st2; cbn [vec_at]; simpl_state; apply lookup_insert_eq).
  assert (Hrow2 : vec_at st2 t d row).
  { apply (vec_at_agree st); [done| |done]. intros a Ha.
    subst st2 st1. simpl_state. rewrite !lookup_insert_ne by lia. done. }
  destruct (decide (CPU = dev)) as [<-|Hcpu].
  - step (to_same E st2 (Own a0) CPU mask H2).
    now rewrite (bind_raise _ _ _ _ _ (mul_mismatch st2 t (Own a0) d CPU row mask
                                         Hrow2 H2 Hne)).
  - step (to_copy E st2 (Own a0) CPU mask dev H2 Hcpu Hav).
    set (st3 := with_heap _ (S (next_addr st2)) st2).
    assert (H3 : vec_at st3 (Own (next_addr st2)) dev mask)
      by (subst st3; cbn [vec_at]; simpl_state; apply lookup_insert_eq).
    assert (Hrow3 : vec_at st3 t d row).
    { apply (vec_at_agree st); [done| |done]. intros a Ha.
      subst st3 st2 st1. simpl_state. rewrite !lookup_insert_ne by lia. done. }
    now rewrite (bind_raise _ _ _ _ _ (mul_mismatch st3 t (Own (next_addr st2)) d dev
                                         row mask Hrow3 H3 Hne)).
Qed.

(** X8: on the masking path, a batch whose vectors live on another device
    than the anonymizer's makes the call raise at the first multiplication:
    the mask is moved to [self.device], the vector is not. *)
Theorem masking_device_mismatch_raises E st b emb_level se vt dev d rows D :
  heap_wf st ->
  masking_mode E st ->
  configured st vt dev ->
  available E dev = true ->
  valid_batch st b se d rows D ->
  d <> dev ->
  (anonymize_embeddings E b emb_level st).1
  = Raise (RuntimeError "device mismatch").
Proof.
  intros Hwf (v & Hv & Hfalse) [Hvt Hdev] Hav Hbatch Hne.
  destruct (scaling_ranges E st) as [r st1] eqn:Hsr. cbn in Hv. subst r.
  destruct (scaling_ranges_ok_inv E st v st1 Hsr)
    as (Hh1 & Hn1 & _ & _ & _ & Hdev1 & _ & _).
  assert (Hwf1 : heap_wf st1) by (intros a o; rewrite Hh1, Hn1; apply Hwf).
  apply (valid_batch_agree st st1) in Hbatch; [|done].
  rewrite Hdev in Hdev1.
  destruct (iterate_ok st1 b se d rows D Hbatch) as (items & Hiter & Hids & Hrows).
  unfold anonymize_embeddings. step Hsr. rewrite Hfalse.
  pose proof (vb_batch _ _ _ _ _ _ Hbatch) as Hb.
  step (original_speakers_ok _ _ _ Hb). step (genders_ok _ _ _ Hb).
  step Hiter.
  destruct Hrows as [|[identifier t] row items rows' Hrow _].
  { destruct Hbatch as [_ _ Hlen Hnil _].
    destruct (se_identifiers se); [done | discriminate]. }
  cbn [snd] in Hrow. cbn [for_each].
  pose proof (masked_vector_mismatch E st1 identifier t dev d row
                Hwf1 Hdev1 Hav Hrow Hne) as Hfail.
  destruct (masked_vector E (identifier, t) st1) as [r s2] eqn:Hrun.
  cbn in Hfail. subst r.
  rewrite (bind_raise _ _ _ (RuntimeError "device mismatch") s2); [reflexivity|].
  now apply bind_raise.
Qed.

Lemma masking_device_mismatch_raises_witness :
  let st :=
    with_heap {[ 0%nat := OTensor (T2 (CUDA 0) Demo.rows);
                 1%nat := OBatch (output_batch "xvector" (CUDA 0) None
                                    ["utt1"; "utt2"] 0%nat None None) ]}
              2%nat Demo.st_mask in
  (anonymize_embeddings Demo.env_gpu 1%nat "spk" st).1
  = Raise (RuntimeError "device mismatch").
Proof.
  intros st.
  apply (masking_device_mismatch_raises Demo.env_gpu st 1%nat "spk"
           (output_batch "xvector" (CUDA 0) None ["utt1"; "utt2"] 0%nat None None)
           "xvector" CPU (CUDA 0) Demo.rows 3).
  - solve_heap_wf.
  - exists None. split; reflexivity.
  - split; reflexivity.
  - reflexivity.
  - split; [reflexivity | | reflexivity | discriminate | repeat constructor].
    exists 0%nat. split; reflexivity.
  - discriminate.
Defined.

(** ** Coordinates the masks cannot change *)

Lemma mask_float_finite z :
  -40 <= z <= 39 -> Float.is_finite (Float.of_Z32 z) = true.
Proof.
  intros Hz.
  assert (Hall : forallb (fun i => Float.is_finite (Float.of_Z32 (Z.of_nat i - 40)))
                   (seq 0 80) = true) by (vm_compute; reflexivity).
  rewrite forallb_forall in Hall.
  specialize (Hall (Z.to_nat (z + 40))).
  replace (Z.of_nat (Z.to_nat (z + 40)) - 40) with z in Hall by lia.
  apply Hall, in_seq. lia.
Qed.

Lemma mul32_keeps_zero_and_nan x y :
  Float.is_finite y = true ->
  (Float.is_zero x = true -> Float.is_zero (Float.mul32 x y) = true)
  /\ (Float.is_nan x = true -> Float.is_nan (Float.mul32 x y) = true).
Proof. intros Hy. destruct x, y; cbn in *; by split. Qed.

(** X9: on the masking path a zero coordinate of an input vector gives a
    zero coordinate of the output vector, and a NaN coordinate a NaN,
    whatever masks are drawn. *)
Theorem masking_keeps_zero_and_nan E st b emb_level se vt dev rows D :
  heap_wf st ->
  masking_mode E st ->
  configured st vt dev ->
  available E dev = true ->
  valid_batch st b se dev rows D ->
  exists out st' rows',
    anonymize_embeddings E b emb_level st = (Ok out, st')
    /\ output_rows st' out dev rows'
    /\ forall k i (row : list spec_float) x,
         rows !! k = Some row -> row !! i = Some x ->
         exists (row' : list spec_float) y,
           rows' !! k = Some row' /\ row' !! i = Some y
           /\ (Float.is_zero x = true -> Float.is_zero y = true)
           /\ (Float.is_nan x = true -> Float.is_nan y = true).
Proof.
  intros Hwf Hmode Hconf Hav Hbatch.
  destruct (masking_run E st b emb_level se vt dev rows D
              Hwf Hmode Hconf Hav Hbatch)
    as (out & vectors & st' & Hrun & _ & _ & Hout & Hvec).
  exists out, st', (masked_rows E (torch_pos st) rows).
  split; [exact Hrun|]. split.
  { eexists _, vectors. split; [exact Hout|]. split; [reflexivity | exact Hvec]. }
  intros k i row x Hrow Hx.
  destruct (Forall2_lookup_l _ _ _ k row
              (batch_masks_shape E (torch_pos st) rows) Hrow)
    as (m & Hm & Hlen & Hrange).
  destruct (lookup_lt_is_Some_2 m i) as [z Hz].
  { rewrite Hlen. eapply lookup_lt_Some, Hx. }
  exists (apply_mask row m), (Float.mul32 x (Float.of_Z32 z)).
  split; [|split].
  - unfold masked_rows. rewrite lookup_zip_with, Hrow. cbn. now rewrite Hm.
  - unfold apply_mask. rewrite lookup_zip_with, Hx. cbn.
    now rewrite list_lookup_fmap, Hz.
  - apply mul32_keeps_zero_and_nan, mask_float_finite.
    exact (Forall_lookup_1 (fun z : Z => -40 <= z <= 39) m i z Hrange Hz).
Qed.

Lemma masking_keeps_zero_and_nan_witness :
  exists out st' rows',
    anonymize_embeddings Demo.env 3%nat "spk" Demo.st_mask = (Ok out, st')
    /\ output_rows st' out CPU rows'
    /\ exists (row' : list spec_float) y,
         rows' !! 1%nat = Some row' /\ row' !! 1%nat = Some y
         /\ Float.is_zero y = true.
Proof.
  destruct (masking_keeps_zero_and_nan Demo.env Demo.st_mask 3%nat "spk"
              Demo.batch "xvector" CPU Demo.rows 3)
    as (out & st' & rows' & Hrun & Hout & Hall).
  - solve_heap_wf.
  - exists None. split; reflexivity.
  - split; reflexivity.
  - reflexivity.
  - apply demo_valid_batch; [repeat constructor | reflexivity].
  - exists out, st', rows'. split; [exact Hrun|]. split; [exact Hout|].
    destruct (Hall 1%nat 1%nat [Demo.f (-1); Demo.f 0; Demo.f 5] (Demo.f 0)
                eq_refl eq_refl) as (row' & y & Hrow' & Hy & Hzero & _).
    exists row', y. split; [exact Hrow'|]. split; [exact Hy|].
    apply Hzero. reflexivity.
Defined.

(** ** What a computation leaves alone *)

Section Keeps.
Context {X : Type} (I : State -> Prop) (proj : State -> X).

Lemma keeps_ret {A} (a : A) : keeps I proj (ret a).
Proof. by intros st HI. Qed.

Lemma keeps_raise {A} e : keeps I proj (@raise A e).
Proof. by intros st HI. Qed.

Lemma keeps_lift {A} (r : result A) : keeps I proj (lift r).
Proof. by intros st HI. Qed.

Lemma keeps_lift_opt {A} e (o : option A) : keeps I proj (lift_opt e o).
Proof. by destruct o; intros st HI. Qed.

Lemma keeps_get : keeps I proj get.
Proof. by intros st HI. Qed.

Lemma keeps_bind {A B} (m : M A) (k : A -> M B) :
  keeps I proj m -> (forall a, keeps I proj (k a)) -> keeps I proj (bind m k).
Proof.
  intros Hm Hk st HI. unfold bind. destruct (Hm st HI) as [HI1 Hp1].
  destruct (m st) as [[a|e] st1]; cbn in *; [|done].
  destruct (Hk a st1 HI1) as [HI2 Hp2]. split; [done | congruence].
Qed.

Lemma keeps_for_each {A B} (body : A -> M B) xs :
  (forall x, keeps I proj (body x)) -> keeps I proj (for_each body xs).
Proof.
  intros Hb. induction xs as [|x xs IH]; cbn [for_each].
  - apply keeps_ret.
  - apply keeps_bind; [apply Hb|]. intros y.
    apply keeps_bind; [apply IH|]. intros ys. apply keeps_ret.
Qed.

Lemma keeps_modify f : blind I proj f -> keeps I proj (modify f).
Proof. intros Hf st HI. apply (Hf st HI). Qed.

Lemma keeps_getattr {A} name (field : RandomAnonymizer -> option A) :
  keeps I proj (getattr name field).
Proof.
  unfold getattr. apply keeps_bind; [apply keeps_get|].
  intros st. apply keeps_lift_opt.
Qed.

(** Operations on the heap, for an observation the heap does not enter. *)
Section HeapBlind.
Hypothesis Hheap : forall h n, blind I proj (with_heap h n).

Lemma keeps_alloc o : keeps I proj (alloc o).
Proof.
  unfold alloc. apply keeps_bind; [apply keeps_get|]. intros st0.
  apply keeps_bind; [apply keeps_modify, Hheap|]. intros _. apply keeps_ret.
Qed.

Lemma keeps_load a : keeps I proj (load a).
Proof.
  unfold load. apply keeps_bind; [apply keeps_get|].
  intros st0. apply keeps_lift_opt.
Qed.

Lemma keeps_store a o : keeps I proj (store a o).
Proof. intros st HI. apply (Hheap _ _ st HI). Qed.

Lemma keeps_read_vec t : keeps I proj (read_vec t).
Proof.
  destruct t as [a|base i]; cbn [read_vec];
    (apply keeps_bind; [apply keeps_load|]);
    intros [|[]|]; auto using keeps_ret, keeps_raise, keeps_lift_opt.
Qed.

Lemma keeps_write_vec t ys : keeps I proj (write_vec t ys).
Proof.
  destruct t as [a|base i]; cbn [write_vec];
    (apply keeps_bind; [apply keeps_load|]);
    intros [|[]|]; auto using keeps_store, keeps_raise.
Qed.

Lemma keeps_shape0 t : keeps I proj (shape0 t).
Proof.
  unfold shape0. apply keeps_bind; [apply keeps_read_vec|].
  intros dx. apply keeps_ret.
Qed.

Lemma keeps_torch_zeros n : keeps I proj (torch_zeros n).
Proof.
  unfold torch_zeros. apply keeps_bind; [apply keeps_alloc|].
  intros a. apply keeps_ret.
Qed.

Lemma keeps_to E t dev : keeps I proj (to E t dev).
Proof.
  unfold to. apply keeps_bind; [apply keeps_read_vec|]. intros dx.
  destruct (decide _); [apply keeps_ret|].
  destruct (available E dev); [|apply keeps_raise].
  apply keeps_bind; [apply keeps_alloc|]. intros a. apply keeps_ret.
Qed.

Lemma keeps_mul a b : keeps I proj (mul a b).
Proof.
  unfold mul. apply keeps_bind; [apply keeps_read_vec|]. intros x.
  apply keeps_bind; [apply keeps_read_vec|]. intros y.
  destruct (decide _); [|apply keeps_raise].
  destruct (decide _); [|apply keeps_raise].
  apply keeps_bind; [apply keeps_alloc|]. intros r. apply keeps_ret.
Qed.

Lemma keeps_torch_tensor xs : keeps I proj (torch_tensor xs).
Proof.
  unfold torch_tensor. apply keeps_bind; [apply keeps_alloc|].
  intros a. apply keeps_ret.
Qed.

Lemma keeps_torch_stack ts : keeps I proj (torch_stack ts).
Proof.
  unfold torch_stack.
  apply keeps_bind; [apply keeps_for_each, keeps_read_vec|].
  intros [|v rest]; [apply keeps_raise|].
  destruct (forallb _ rest); [apply keeps_alloc | apply keeps_raise].
Qed.

Lemma keeps_load_batch b : keeps I proj (load_batch b).
Proof.
  unfold load_batch. apply keeps_bind; [apply keeps_load|].
  intros [| |se]; auto using keeps_ret, keeps_raise.
Qed.

Lemma keeps_original_speakers b : keeps I proj (original_speakers b).
Proof.
  unfold original_speakers. apply keeps_bind; [apply keeps_load_batch|].
  intros se. apply keeps_ret.
Qed.

Lemma keeps_genders b : keeps I proj (genders b).
Proof.
  unfold genders. apply keeps_bind; [apply keeps_load_batch|].
  intros se. apply keeps_ret.
Qed.

Lemma keeps_iterate b : keeps I proj (iterate b).
Proof.
  unfold iterate. apply keeps_bind; [apply keeps_load_batch|]. intros se.
  apply keeps_bind; [apply keeps_lift_opt|]. intros v.
  apply keeps_bind; [apply keeps_load|].
  intros [|[d xs|d rows]|]; try apply keeps_raise.
  destruct (_ <=? _)%nat; [apply keeps_ret | apply keeps_raise].
Qed.

Lemma keeps_set_vectors b ids v g s : keeps I proj (set_vectors b ids v g s).
Proof.
  unfold set_vectors. apply keeps_bind; [apply keeps_load_batch|].
  intros se. apply keeps_store.
Qed.

Lemma keeps_new_batch (anon : list (string * tref)) lvl g s :
  keeps I proj
    (let* vt := getattr "vec_type" vec_type in
     let* dev := getattr "device" device in
     let* anon_embeddings := SpeakerEmbeddings_new vt dev lvl in
     let* stacked := torch_stack anon.*2 in
     set_vectors anon_embeddings anon.*1 stacked g s;;
     ret anon_embeddings).
Proof.
  apply keeps_bind; [apply keeps_getattr|]. intros vt.
  apply keeps_bind; [apply keeps_getattr|]. intros dev.
  apply keeps_bind; [apply keeps_alloc|]. intros b.
  apply keeps_bind; [apply keeps_torch_stack|]. intros v.
  apply keeps_bind; [apply keeps_set_vectors|]. intros _. apply keeps_ret.
Qed.

Lemma keeps_random_ E t from to :
  (forall n, blind I proj (with_torch_pos n)) ->
  keeps I proj (random_ E t from to).
Proof.
  intros Htorch. unfold random_.
  apply keeps_bind; [apply keeps_read_vec|]. intros dx.
  apply keeps_bind.
  { apply keeps_for_each. intros x. unfold random_elem, next_torch_word.
    apply keeps_bind; [|intros raw; apply keeps_ret].
    apply keeps_bind; [apply keeps_get|]. intros st0.
    apply keeps_bind; [apply keeps_modify, Htorch|]. intros _. apply keeps_ret. }
  intros ys. apply keeps_bind; [apply keeps_write_vec|].
  intros _. apply keeps_ret.
Qed.

Lemma keeps_masked_vector E item :
  (forall n, blind I proj (with_torch_pos n)) ->
  keeps I proj (masked_vector E item).
Proof.
  intros Htorch. unfold masked_vector, float.
  apply keeps_bind; [apply keeps_shape0|]. intros n.
  apply keeps_bind; [apply keeps_torch_zeros|]. intros z.
  apply keeps_bind; [apply keeps_ret|]. intros z'.
  apply keeps_bind; [by apply keeps_random_|]. intros z''.
  apply keeps_bind; [apply keeps_getattr|]. intros dev.
  apply keeps_bind; [apply keeps_to|]. intros mask.
  apply keeps_bind; [apply keeps_mul|]. intros anon_vec. apply keeps_ret.
Qed.

Lemma keeps_np_random_uniform E r :
  (forall n, blind I proj (with_np_pos n)) ->
  keeps I proj (np_random_uniform E r).
Proof.
  intros Hnp. unfold np_random_uniform, next_np_double.
  apply keeps_bind; [apply keeps_lift|]. intros low.
  apply keeps_bind; [apply keeps_lift|]. intros high.
  destruct (Float.is_finite _); [|apply keeps_raise].
  apply keeps_bind; [|intros u; apply keeps_ret].
  apply keeps_bind; [apply keeps_get|]. intros st0.
  apply keeps_bind; [apply keeps_modify, Hnp|]. intros _. apply keeps_ret.
Qed.

Lemma keeps_anonymize_data_in_scale E b :
  (forall n, blind I proj (with_np_pos n)) ->
  keeps I proj (scaling_ranges E) ->
  keeps I proj (_anonymize_data_in_scale E b).
Proof.
  intros Hnp Hsr. unfold _anonymize_data_in_scale.
  apply keeps_bind; [apply keeps_original_speakers|]. intros s.
  apply keeps_bind; [apply keeps_genders|]. intros g.
  apply keeps_bind; [apply keeps_iterate|]. intros items.
  apply keeps_bind; [|intros anon; apply keeps_new_batch].
  apply keeps_for_each. intros item. unfold in_scale_vector.
  apply keeps_bind; [exact Hsr|]. intros r.
  apply keeps_bind; [apply keeps_lift_opt|]. intros prof.
  apply keeps_bind;
    [apply keeps_for_each; intros x; by apply keeps_np_random_uniform|].
  intros samples.
  apply keeps_bind; [apply keeps_torch_tensor|]. intros t.
  apply keeps_bind; [apply keeps_getattr|]. intros dev.
  apply keeps_bind; [apply keeps_to|]. intros anon_vec. apply keeps_ret.
Qed.

Lemma keeps_masking_branch E v b lvl :
  truthy v = false ->
  (forall n, blind I proj (with_torch_pos n)) ->
  keeps I proj (after_dispatch E v b lvl).
Proof.
  intros Hv Htorch. unfold after_dispatch. rewrite Hv.
  apply keeps_bind; [apply keeps_original_speakers|]. intros s.
  apply keeps_bind; [apply keeps_genders|]. intros g.
  apply keeps_bind; [apply keeps_iterate|]. intros items.
  apply keeps_bind; [|intros anon; apply keeps_new_batch].
  apply keeps_for_each. intros item. by apply keeps_masked_vector.
Qed.

Lemma keeps_calibrated_branch E v b lvl :
  truthy v = true ->
  (forall n, blind I proj (with_np_pos n)) ->
  (forall o, blind I proj (with_stdout o)) ->
  keeps I proj (scaling_ranges E) ->
  keeps I proj (after_dispatch E v b lvl).
Proof.
  intros Hv Hnp Hout Hsr. unfold after_dispatch. rewrite Hv.
  apply keeps_bind; [|intros _; by apply keeps_anonymize_data_in_scale].
  intros st HI. apply (Hout _ st HI).
Qed.

End HeapBlind.

Lemma keeps_scaling_ranges E :
  (forall r, blind I proj (with_reads r)) ->
  (forall s, blind I proj (with_self s)) ->
  keeps I proj (scaling_ranges E).
Proof.
  intros Hreads Hself.
  assert (Hset : forall f, keeps I proj (setattr f)).
  { intros f st HI. apply (Hself _ st HI). }
  unfold scaling_ranges.
  apply keeps_bind; [apply keeps_getattr|]. intros [p|].
  - apply keeps_bind; [|intros _; apply keeps_getattr].
    apply keeps_bind; [|intros prof; apply keeps_bind; auto].
    unfold _load_scaling_ranges, open.
    apply keeps_bind.
    { destruct (fs E !! p); [|apply keeps_raise].
      apply keeps_bind; [|intros _; apply keeps_ret].
      intros st HI. apply (Hreads _ st HI). }
    intros f. apply keeps_bind.
    { destruct f; [apply keeps_raise | apply keeps_ret]. }
    intros j. apply keeps_bind.
    { destruct j; try apply keeps_raise. apply keeps_ret. }
    intros items. apply keeps_bind; [apply keeps_lift_opt|].
    intros o. apply keeps_for_each. intros kv. apply keeps_lift.
  - apply keeps_bind; [apply keeps_ret | intros _; apply keeps_getattr].
Qed.

End Keeps.

Ltac solve_blind :=
  unfold blind; intros; split; [assumption | reflexivity].

Lemma anonymize_embeddings_dispatch E b lvl :
  anonymize_embeddings E b lvl
  = (let* ranges := scaling_ranges E in after_dispatch E ranges b lvl).
Proof. reflexivity. Qed.

Lemma scaling_ranges_settled E st :
  settled st -> (scaling_ranges E st).2 = st.
Proof.
  intros Hp. destruct (_scaling_ranges (self st)) as [v|] eqn:Hr.
  - now rewrite (scaling_ranges_cached E st v Hp Hr).
  - now rewrite (scaling_ranges_unset E st Hp Hr).
Qed.

Lemma keeps_settled_scaling_ranges {X} (proj : State -> X) E :
  keeps settled proj (scaling_ranges E).
Proof. intros st HI. rewrite (scaling_ranges_settled E st HI). by split. Qed.

Lemma keeps_settled_after_dispatch E v b lvl :
  keeps settled (fun st => (self st, reads st)) (after_dispatch E v b lvl).
Proof.
  destruct (truthy v) eqn:Hv.
  - apply keeps_calibrated_branch; try done; try solve_blind.
    + apply keeps_settled_scaling_ranges.
  - apply keeps_masking_branch; try done; try solve_blind.
Qed.

Lemma keeps_settled_anonymize E b lvl :
  keeps settled (fun st => (self st, reads st)) (anonymize_embeddings E b lvl).
Proof.
  rewrite anonymize_embeddings_dispatch.
  apply keeps_bind; [apply keeps_settled_scaling_ranges|].
  intros v. apply keeps_settled_after_dispatch.
Qed.

(** X10: once the pending path is cleared -- after the first successful
    read of [scaling_ranges], or in a strategy built without [in_scale] --
    [anonymize_embeddings] opens no file and leaves every attribute of the
    anonymizer as it is, whether it returns or raises. *)
Theorem settled_anonymize_reads_nothing E st b emb_level :
  settled st ->
  self (anonymize_embeddings E b emb_level st).2 = self st
  /\ reads (anonymize_embeddings E b emb_level st).2 = reads st.
Proof.
  intros Hs.
  destruct (keeps_settled_anonymize E b emb_level st Hs) as [_ [= Hself Hreads]].
  by split.
Qed.

Lemma settled_anonymize_reads_nothing_witness :
  reads (anonymize_embeddings Demo.env 3%nat "spk" Demo.st_mask).2 = [].
Proof.
  apply (settled_anonymize_reads_nothing Demo.env Demo.st_mask 3%nat "spk").
  reflexivity.
Defined.

Lemma scaling_ranges_reads E st :
  reads (scaling_ranges E st).2 = reads st
  \/ exists p, stats_per_dim_path (self st) = Some (Some p)
               /\ reads (scaling_ranges E st).2 = p :: reads st.
Proof.
  destruct (stats_per_dim_path (self st)) as [[p|]|] eqn:Hp.
  - destruct (load_scaling_ranges_run E (Some p)) as [r Hr].
    change (default "stats_per_dim.json" (Some p)) with p in Hr.
    assert (Hst : reads (scaling_ranges E st).2
                  = reads match fs E !! p with
                          | Some _ => with_reads (p :: reads st) st
                          | None => st
                          end).
    { destruct r as [prof|e].
      - now rewrite (scaling_ranges_pending E st p prof _ Hp (Hr st)).
      - now rewrite (scaling_ranges_pending_fail E st p e _ Hp (Hr st)). }
    rewrite Hst. destruct (fs E !! p); [right; eauto | by left].
  - left. now rewrite scaling_ranges_settled.
  - left. unfold scaling_ranges, getattr, bind, get, lift_opt. cbn.
    now rewrite Hp.
Qed.

(** X11: one call of [anonymize_embeddings] opens at most one file, and
    only the pending statistics file. *)
Theorem anonymize_opens_at_most_one_file E st b emb_level :
  reads (anonymize_embeddings E b emb_level st).2 = reads st
  \/ exists p, stats_per_dim_path (self st) = Some (Some p)
               /\ reads (anonymize_embeddings E b emb_level st).2 = p :: reads st.
Proof.
  assert (Hrun : reads (anonymize_embeddings E b emb_level st).2
                 = reads (scaling_ranges E st).2).
  { rewrite anonymize_embeddings_dispatch. unfold bind.
    destruct (scaling_ranges E st) as [[v|e] st1] eqn:Hsr; [|done].
    destruct (scaling_ranges_ok_inv E st v st1 Hsr) as (_ & _ & _ & _ & _ & _ & Hs & _).
    destruct (keeps_settled_after_dispatch E v b emb_level st1 Hs) as [_ [= _ Hreads]].
    exact Hreads. }
  rewrite Hrun. apply scaling_ranges_reads.
Qed.

(** X12: the masking path takes nothing from numpy's generator, and the
    calibrated path nothing from torch's, whether the call returns or
    raises. *)
Theorem generators_are_separate E st b emb_level v :
  (scaling_ranges E st).1 = Ok v ->
  (truthy v = false ->
   np_pos (anonymize_embeddings E b emb_level st).2 = np_pos st)
  /\ (truthy v = true ->
      torch_pos (anonymize_embeddings E b emb_level st).2 = torch_pos st).
Proof.
  intros Hv. destruct (scaling_ranges E st) as [r st1] eqn:Hsr. cbn in Hv. subst r.
  destruct (scaling_ranges_ok_inv E st v st1 Hsr) as (_ & _ & Htp & Hnp & _).
  rewrite anonymize_embeddings_dispatch. unfold bind. rewrite Hsr. split; intros Ht.
  - destruct (keeps_masking_branch (fun _ => True) np_pos
                ltac:(solve_blind) E v b emb_level Ht
                ltac:(solve_blind) st1 Logic.I) as [_ Hk].
    now rewrite Hk.
  - destruct (keeps_calibrated_branch (fun _ => True) torch_pos
                ltac:(solve_blind) E v b emb_level Ht
                ltac:(solve_blind) ltac:(solve_blind)
                (keeps_scaling_ranges (fun _ => True) torch_pos E
                   ltac:(solve_blind) ltac:(solve_blind)) st1 Logic.I) as [_ Hk].
    now rewrite Hk.
Qed.

Lemma generators_are_separate_witness :
  np_pos (anonymize_embeddings Demo.env 3%nat "spk" Demo.st_mask).2 = 0%nat
  /\ torch_pos (anonymize_embeddings Demo.env 3%nat "spk" Demo.st_cal).2 = 0%nat.
Proof.
  split.
  - apply (generators_are_separate Demo.env Demo.st_mask 3%nat "spk" None);
      reflexivity.
  - apply (generators_are_separate Demo.env Demo.st_cal 3%nat "spk"
             (Some [(JInt 3, JInt 4); (JInt 1, JInt 2)]));
      [vm_compute; reflexivity | reflexivity].
Defined.

(** X13: the only thing [anonymize_embeddings] prints is the line
    announcing the calibrated path, once per call that takes it; the
    masking path and a failing read of the property print nothing. *)
Theorem anonymize_prints_only_the_notice E st b emb_level :
  stdout (anonymize_embeddings E b emb_level st).2
  = match (scaling_ranges E st).1 with
    | Ok v => if truthy v
              then "Anonymize vectors in scale!" :: stdout st
              else stdout st
    | Raise _ => stdout st
    end.
Proof.
  pose proof (keeps_scaling_ranges (fun _ => True) stdout E
                ltac:(solve_blind) ltac:(solve_blind)) as Hksr.
  destruct (Hksr st Logic.I) as [_ Hout].
  rewrite anonymize_embeddings_dispatch. unfold bind.
  destruct (scaling_ranges E st) as [[v|e] st1] eqn:Hsr; cbn [fst snd] in *;
    [|exact Hout].
  destruct (truthy v) eqn:Ht.
  - unfold after_dispatch. rewrite Ht.
    assert (Hprint : print "Anonymize vectors in scale!" st1
                     = (Ok tt, with_stdout ("Anonymize vectors in scale!" :: stdout st1) st1))
      by reflexivity.
    step Hprint.
    destruct (keeps_anonymize_data_in_scale (fun _ => True) stdout
                ltac:(solve_blind) E b ltac:(solve_blind) Hksr
                (with_stdout ("Anonymize vectors in scale!" :: stdout st1) st1)
                Logic.I) as [_ Hk].
    rewrite Hk. cbn. now rewrite Hout.
  - destruct (keeps_masking_branch (fun _ => True) stdout
                ltac:(solve_blind) E v b emb_level Ht
                ltac:(solve_blind) st1 Logic.I) as [_ Hk].
    now rewrite Hk.
Qed.

(** ** From construction to the first calibrated call *)

Lemma samplable_profile ordered prof :
  Forall2 (fun kv r => range_of kv = Ok r) ordered prof ->
  Forall (fun kv => exists r, range_of kv = Ok r /\ samplable r) ordered ->
  Forall samplable prof.
Proof.
  induction 1 as [|kv r ordered prof Hr _ IH]; intros Hall; [constructor|].
  apply Forall_cons in Hall as [(r' & Hr' & Hs) Hall].
  constructor; [|by apply IH]. congruence.
Qed.

(** X14: a strategy built with [in_scale=True] and the path of a
    well-formed, non-empty statistics file whose ranges are numbers a finite
    distance apart: its first [anonymize_embeddings] on a valid batch
    loads the file (one open), prints the notice once, clears the pending
    path, and returns a batch with one vector per identifier, each with as
    many dimensions as the file has entries. *)
Theorem first_calibrated_call E dev vt mn p items st0 b emb_level se d rows D :
  fs E !! p = Some (JSONText (JObj items)) ->
  items <> [] ->
  Forall (fun kv => is_Some (PyInt.int (interpreter E) kv.1)
                    /\ exists r, range_of kv = Ok r /\ samplable r) items ->
  heap_wf st0 ->
  available E dev = true ->
  valid_batch st0 b se d rows D ->
  let st := (RandomAnonymizer_new dev vt mn true (Some p) st0).2 in
  exists out st' rows',
    anonymize_embeddings E b emb_level st = (Ok out, st')
    /\ output_rows st' out dev rows'
    /\ length rows' = length (se_identifiers se)
    /\ Forall (fun row => length row = length items) rows'
    /\ reads st' = p :: reads st0
    /\ stdout st' = "Anonymize vectors in scale!" :: stdout st0
    /\ settled st'.
Proof.
  intros Hfile Hne Hitems Hwf Hav Hbatch.
  destruct (RandomAnonymizer_new_spec dev vt mn true (Some p) st0) as [name ->].
  cbn [snd]. set (st := with_self _ st0).
  assert (Hwfe : Forall (well_formed_entry E) items).
  { eapply Forall_impl; [exact Hitems|]. intros kv [Hk (r & Hr & _)].
    split; [exact Hk | now rewrite Hr]. }
  destruct (load_scaling_ranges_ok E (Some p) items st Hfile Hwfe)
    as (ordered & prof & Hload & Hperm & _ & Hprof).
  pose proof (scaling_ranges_pending E st p prof _ eq_refl Hload) as Hsr.
  set (st1 := with_self _ _) in Hsr.
  assert (Hlen : length prof = length items).
  { rewrite <- (Forall2_length _ _ _ Hprof). now rewrite Hperm. }
  assert (Hmode : calibrated_mode E st prof).
  { split; [now rewrite Hsr|]. intros ->. destruct items; [done | discriminate]. }
  assert (Hsamp : Forall samplable prof).
  { eapply samplable_profile; [exact Hprof|]. rewrite Hperm.
    eapply Forall_impl; [exact Hitems|]. by intros kv [_ ?]. }
  assert (Hwf1 : heap_wf st) by exact Hwf.
  assert (Hconf : configured st vt dev) by (split; reflexivity).
  assert (Hbatch1 : valid_batch st b se d rows D)
    by (apply (valid_batch_agree st0); [reflexivity | exact Hbatch]).
  destruct (calibrated_run E st b emb_level se vt dev d rows D prof
              Hwf1 Hmode Hconf Hav Hbatch1 Hsamp)
    as (out & vectors & rows' & st' & Hrun & _ & _ & Hout & Hvec & Hrows & Hdim).
  exists out, st', rows'. split; [exact Hrun|]. split.
  { eexists _, vectors. split; [exact Hout|]. split; [reflexivity | exact Hvec]. }
  split; [exact Hrows|]. split; [now rewrite <- Hlen|].
  assert (Hst' : st' = (after_dispatch E (Some prof) b emb_level st1).2).
  { rewrite anonymize_embeddings_dispatch in Hrun. unfold bind in Hrun.
    rewrite Hsr in Hrun. now rewrite Hrun. }
  destruct (keeps_settled_after_dispatch E (Some prof) b emb_level st1 eq_refl)
    as [Hsettled [= _ Hreads]].
  rewrite <- Hst' in Hsettled, Hreads.
  split; [exact Hreads|]. split; [|exact Hsettled].
  rewrite Hst'. unfold after_dispatch.
  destruct prof as [|r prof]; [by destruct Hmode|]. cbn [truthy].
  assert (Hprint : print "Anonymize vectors in scale!" st1
                   = (Ok tt, with_stdout ("Anonymize vectors in scale!" :: stdout st1) st1))
    by reflexivity.
  step Hprint.
  destruct (keeps_anonymize_data_in_scale (fun _ => True) stdout
              ltac:(solve_blind) E b ltac:(solve_blind)
              (keeps_scaling_ranges (fun _ => True) stdout E
                 ltac:(solve_blind) ltac:(solve_blind))
              (with_stdout ("Anonymize vectors in scale!" :: stdout st1) st1)
              Logic.I) as [_ Hk].
  now rewrite Hk.
Qed.

Lemma first_calibrated_call_witness :
  exists out st' rows',
    anonymize_embeddings Demo.env 3%nat "utt" Demo.st_cal = (Ok out, st')
    /\ output_rows st' out CPU rows'
    /\ Forall (fun row => length row = 2%nat) rows'
    /\ reads st' = ["stats.json"].
Proof.
  destruct (first_calibrated_call Demo.env CPU "xvector" None "stats.json"
              [("10", JObj [("min", JInt 1); ("max", JInt 2)]);
               ("2", JObj [("min", JInt 3); ("max", JInt 4)])]
              Demo.st0 3%nat "utt" Demo.batch CPU Demo.rows 3)
    as (out & st' & rows' & Hrun & Hout & _ & Hdim & Hreads & _).
  - vm_compute. reflexivity.
  - discriminate.
  - repeat constructor; try (vm_compute; eauto; fail);
      eexists; (split; [reflexivity|]); eexists _, _;
      (split; [reflexivity | split; [reflexivity | vm_compute; reflexivity]]).
  - solve_heap_wf.
  - reflexivity.
  - apply (demo_valid_batch blank); [repeat constructor | reflexivity].
  - exists out, st', rows'. repeat split; assumption.
Defined.

(** ** The calibrated vectors, value by value *)

Lemma np_random_uniform_run E r st :
  samplable r ->
  np_random_uniform E r st
  = (Ok (np_sample E (np_pos st) r), with_np_pos (S (np_pos st)) st).
Proof.
  intros (lo & hi & Hlo & Hhi & Hfin).
  unfold np_random_uniform, np_sample, lift. unfold bind at 1. rewrite Hlo.
  unfold bind at 1. rewrite Hhi. rewrite Hfin. reflexivity.
Qed.

Lemma np_samples_run E prof st :
  Forall samplable prof ->
  for_each (np_random_uniform E) prof st
  = (Ok (np_samples E (np_pos st) prof),
     with_np_pos (np_pos st + length prof) st).
Proof.
  intros Hprof. revert st. induction Hprof as [|r prof Hr _ IH]; intros st.
  - cbn. now rewrite Nat.add_0_r, with_np_pos_id.
  - cbn [for_each np_samples]. step (np_random_uniform_run E r st Hr).
    step (IH (with_np_pos (S (np_pos st)) st)). unfold ret. simpl_state.
    do 2 f_equal. cbn [length]. lia.
Qed.

Lemma length_np_samples E pos prof :
  length (np_samples E pos prof) = length prof.
Proof.
  revert pos. induction prof as [|r prof IH]; intros pos; cbn; [done|].
  now rewrite IH.
Qed.

(** One iteration of the calibrated loop, with the values it draws. *)
Lemma in_scale_vector_run E st identifier t dev prof :
  heap_wf st ->
  device (self st) = Some dev ->
  available E dev = true ->
  settled st ->
  _scaling_ranges (self st) = Some (Some prof) ->
  Forall samplable prof ->
  exists a st',
    in_scale_vector E (identifier, t) st = (Ok (identifier, Own a), st')
    /\ heap st' !! a
       = Some (OTensor (T1 dev (map Float.narrow (np_samples E (np_pos st) prof))))
    /\ preserves (next_addr st) st st'
    /\ self st' = self st
    /\ np_pos st' = (np_pos st + length prof)%nat.
Proof.
  intros Hwf Hdev Hav Hpath Hranges Hprof.
  pose proof (framed_in_scale_vector E (next_addr st) (identifier, t) st Hwf
                (Nat.le_refl _)) as [Hpres _].
  revert Hpres. unfold in_scale_vector. cbn [fst].
  step (scaling_ranges_cached E st (Some prof) Hpath Hranges).
  step (ret_eq prof st).
  step (np_samples_run E prof st Hprof).
  set (xs := np_samples E (np_pos st) prof).
  set (st1 := with_np_pos _ st).
  step (torch_tensor_eq xs st1).
  set (a0 := next_addr st1). set (st2 := with_heap _ (S a0) st1).
  assert (Hd2 : device (self st2) = Some dev) by exact Hdev.
  step (getattr_ok "device" device st2 dev Hd2).
  assert (H2 : vec_at st2 (Own a0) CPU (map Float.narrow xs))
    by (subst st2; cbn [vec_at]; simpl_state; apply lookup_insert_eq).
  destruct (decide (CPU = dev)) as [<-|Hne].
  - step (to_same E st2 (Own a0) CPU _ H2). cbn [ret].
    intros Hpres. eexists a0, st2. split; [reflexivity|].
    split; [exact H2|]. split; [exact Hpres|]. split; reflexivity.
  - step (to_copy E st2 (Own a0) CPU _ dev H2 Hne Hav). cbn [ret].
    intros Hpres. eexists _, _. split; [reflexivity|].
    split; [simpl_state; apply lookup_insert_eq|].
    split; [exact Hpres|]. split; reflexivity.
Qed.

Lemma in_scale_loop_run E dev prof items st :
  heap_wf st ->
  device (self st) = Some dev ->
  available E dev = true ->
  settled st ->
  _scaling_ranges (self st) = Some (Some prof) ->
  Forall samplable prof ->
  exists anon st',
    for_each (in_scale_vector E) items st = (Ok anon, st')
    /\ anon.*1 = items.*1
    /\ Forall2 (fun t row => vec_at st' t dev row) anon.*2
         (sample_rows E (np_pos st) prof (length items))
    /\ preserves (next_addr st) st st'
    /\ self st' = self st
    /\ np_pos st' = (np_pos st + length items * length prof)%nat.
Proof.
  intros Hwf Hdev Hav Hpath Hranges Hprof. revert st Hwf Hdev Hpath Hranges.
  induction items as [|[identifier t] items IH]; intros st Hwf Hdev Hpath Hranges.
  - exists [], st. cbn. rewrite Nat.add_0_r. repeat split; try done; constructor.
  - destruct (in_scale_vector_run E st identifier t dev prof
                Hwf Hdev Hav Hpath Hranges Hprof)
      as (a & st1 & Hrun & Ha & Hpres1 & Hself1 & Hpos1).
    pose proof Hpres1 as (Hwf1 & Hn1 & Hh1).
    destruct (IH st1 Hwf1) as (anon & st' & Hloop & Hids & Hvecs
                               & Hpres2 & Hself2 & Hpos2);
      try (unfold settled; rewrite Hself1; done).
    exists ((identifier, Own a) :: anon), st'.
    split; [|split; [|split; [|split; [|split]]]].
    + cbn [for_each]. step Hrun. step Hloop. reflexivity.
    + cbn. now rewrite Hids.
    + cbn [fmap list_fmap snd length sample_rows]. constructor.
      * destruct Hpres2 as (_ & _ & Hh2). cbn [vec_at].
        rewrite Hh2; [exact Ha|]. eapply Hwf1, Ha.
      * now rewrite <- Hpos1.
    + eapply preserves_trans; [exact Hpres1|].
      destruct Hpres2 as (Hwf2 & Hn2 & Hh2). repeat split; [done|done|].
      intros a' Ha'. apply Hh2. lia.
    + congruence.
    + rewrite Hpos2, Hpos1. cbn [length]. lia.
Qed.

Lemma sample_rows_uniform E pos prof n :
  Forall (fun row => length row = length prof) (sample_rows E pos prof n).
Proof.
  revert pos. induction n as [|n IH]; intros pos; cbn; constructor.
  - now rewrite length_map, length_np_samples.
  - apply IH.
Qed.

Lemma length_sample_rows E pos prof n : length (sample_rows E pos prof n) = n.
Proof. revert pos. induction n as [|n IH]; intros pos; cbn; [done|]. now rewrite IH. Qed.

(** The calibrated path, run on a valid batch, with the vectors it
    returns. *)
Lemma calibrated_run_samples E st b emb_level se vt dev d rows D prof :
  heap_wf st ->
  calibrated_mode E st prof ->
  configured st vt dev ->
  available E dev = true ->
  valid_batch st b se d rows D ->
  Forall samplable prof ->
  exists out vectors st',
    anonymize_embeddings E b emb_level st = (Ok out, st')
    /\ heap st !! out = None
    /\ heap st !! vectors = None
    /\ heap st' !! out
       = Some (OBatch (output_batch vt dev None (se_identifiers se)
                         vectors (se_genders se) (se_original_speakers se)))
    /\ heap st' !! vectors
       = Some (OTensor (T2 dev (sample_rows E (np_pos st) prof
                                  (length (se_identifiers se))))).
Proof.
  intros Hwf [Hv Hnonempty] [Hvt Hdev] Hav Hbatch Hprof.
  destruct (scaling_ranges E st) as [r st1] eqn:Hsr. cbn in Hv. subst r.
  destruct (scaling_ranges_ok_inv E st _ st1 Hsr)
    as (Hh1 & Hn1 & _ & Hnp1 & Hvt1 & Hdev1 & Hpath1 & Hranges1).
  rewrite Hvt in Hvt1. rewrite Hdev in Hdev1.
  set (st1' := with_stdout ("Anonymize vectors in scale!" :: stdout st1) st1).
  assert (Hwf1 : heap_wf st1').
  { intros a o. subst st1'. simpl_state. rewrite Hh1, Hn1. apply Hwf. }
  pose proof (valid_batch_agree st st1' b se d rows D Hh1 Hbatch) as Hbatch1.
  destruct (iterate_ok st1' b se d rows D Hbatch1) as (items & Hiter & Hids & Hrows).
  destruct (in_scale_loop_run E dev prof items st1' Hwf1 Hdev1 Hav Hpath1 Hranges1 Hprof)
    as (anon & st2 & Hloop & Hanon & Hvecs & Hpres & Hself & Hpos).
  pose proof Hpres as (Hwf2 & Hn2 & Hh2).
  assert (Hcount : length items = length (se_identifiers se)).
  { rewrite <- Hids. now rewrite length_fmap. }
  assert (Hne : sample_rows E (np_pos st1') prof (length items) <> []).
  { destruct Hbatch1 as [_ _ _ Hnil _]. rewrite Hcount.
    destruct (se_identifiers se); [done | discriminate]. }
  assert (Hvt2 : vec_type (self st2) = Some vt) by (rewrite Hself; exact Hvt1).
  assert (Hdev2 : device (self st2) = Some dev) by (rewrite Hself; exact Hdev1).
  destruct (new_batch_ok st2 vt dev dev None anon _ (length prof)
              (se_genders se) (se_original_speakers se) Hwf2 Hvt2 Hdev2 Hvecs Hne
              (sample_rows_uniform E _ prof _))
    as (st' & Htail & Hout & Hstacked & Hself').
  exists (next_addr st2), (S (next_addr st2)), st'.
  split; [|split; [|split; [|split]]].
  - unfold anonymize_embeddings. step Hsr.
    destruct prof as [|r prof]; [done|]. cbn [truthy].
    assert (Hprint : print "Anonymize vectors in scale!" st1 = (Ok tt, st1'))
      by reflexivity.
    step Hprint. unfold _anonymize_data_in_scale.
    destruct Hbatch1 as [Hb _ _ _ _].
    step (original_speakers_ok _ _ _ Hb). step (genders_ok _ _ _ Hb).
    step Hiter. step Hloop. exact Htail.
  - apply fresh_above; [done|]. subst st1'. revert Hn2. simpl_state. lia.
  - apply fresh_above; [done|]. subst st1'. revert Hn2. simpl_state. lia.
  - now rewrite Hout, Hanon, Hids.
  - rewrite Hstacked, Hcount. subst st1'. simpl_state. now rewrite Hnp1.
Qed.

(** X15: on the calibrated path the output vectors are the samples drawn
    from the profile's ranges with numpy's generator, narrowed to float32:
    they are fixed by the profile, the number of identifiers and the
    generator's position, and nothing of the input vectors (values,
    dimension, device) enters them.  The call advances the generator by one
    double per identifier and profile entry. *)
Theorem calibrated_output_is_the_samples E st b emb_level se vt dev d rows D prof :
  heap_wf st ->
  calibrated_mode E st prof ->
  configured st vt dev ->
  available E dev = true ->
  valid_batch st b se d rows D ->
  Forall samplable prof ->
  exists out st',
    anonymize_embeddings E b emb_level st = (Ok out, st')
    /\ output_rows st' out dev
         (sample_rows E (np_pos st) prof (length (se_identifiers se)))
    /\ np_pos st'
       = (np_pos st + length (se_identifiers se) * length prof)%nat.
Proof.
  intros Hwf [Hv Hnonempty] [Hvt Hdev] Hav Hbatch Hprof.
  destruct (scaling_ranges E st) as [r st1] eqn:Hsr. cbn in Hv. subst r.
  destruct (scaling_ranges_ok_inv E st _ st1 Hsr)
    as (Hh1 & Hn1 & _ & Hnp1 & Hvt1 & Hdev1 & Hpath1 & Hranges1).
  rewrite Hvt in Hvt1. rewrite Hdev in Hdev1.
  set (st1' := with_stdout ("Anonymize vectors in scale!" :: stdout st1) st1).
  assert (Hwf1 : heap_wf st1').
  { intros a o. subst st1'. simpl_state. rewrite Hh1, Hn1. apply Hwf. }
  pose proof (valid_batch_agree st st1' b se d rows D Hh1 Hbatch) as Hbatch1.
  destruct (iterate_ok st1' b se d rows D Hbatch1) as (items & Hiter & Hids & Hrows).
  destruct (in_scale_loop_run E dev prof items st1' Hwf1 Hdev1 Hav Hpath1 Hranges1 Hprof)
    as (anon & st2 & Hloop & Hanon & Hvecs & Hpres & Hself & Hpos).
  pose proof Hpres as (Hwf2 & Hn2 & Hh2).
  assert (Hcount : length items = length (se_identifiers se)).
  { rewrite <- Hids. now rewrite length_fmap. }
  assert (Hne : sample_rows E (np_pos st1') prof (length items) <> []).
  { destruct Hbatch1 as [_ _ _ Hnil _]. rewrite Hcount.
    destruct (se_identifiers se); [done | discriminate]. }
  assert (Hvt2 : vec_type (self st2) = Some vt) by (rewrite Hself; exact Hvt1).
  assert (Hdev2 : device (self st2) = Some dev) by (rewrite Hself; exact Hdev1).
  destruct (new_batch_ok st2 vt dev dev None anon _ (length prof)
              (se_genders se) (se_original_speakers se) Hwf2 Hvt2 Hdev2 Hvecs Hne
              (sample_rows_uniform E _ prof _))
    as (st' & Htail & Hout & Hstacked & Hself').
  assert (Hrun : anonymize_embeddings E b emb_level st = (Ok (next_addr st2), st')).
  { unfold anonymize_embeddings. step Hsr.
    destruct prof as [|r prof]; [done|]. cbn [truthy].
    assert (Hprint : print "Anonymize vectors in scale!" st1 = (Ok tt, st1'))
      by reflexivity.
    step Hprint. unfold _anonymize_data_in_scale.
    destruct Hbatch1 as [Hb _ _ _ _].
    step (original_speakers_ok _ _ _ Hb). step (genders_ok _ _ _ Hb).
    step Hiter. step Hloop. exact Htail. }
  exists (next_addr st2), st'. split; [exact Hrun|]. split.
  - eexists _, (S (next_addr st2)). split; [exact Hout|]. split; [reflexivity|].
    rewrite Hstacked, Hcount. subst st1'. simpl_state. now rewrite Hnp1.
  - destruct (keeps_new_batch (fun _ => True) np_pos ltac:(solve_blind)
                anon None (se_genders se) (se_original_speakers se) st2 Logic.I)
      as [_ Hk].
    rewrite Htail in Hk. cbn [snd] in Hk. rewrite Hk, Hpos, Hcount.
    subst st1'. simpl_state. now rewrite Hnp1.
Qed.

Lemma calibrated_output_is_the_samples_witness :
  exists out st',
    anonymize_embeddings Demo.env 3%nat "spk" Demo.st_cal = (Ok out, st')
    /\ output_rows st' out CPU
         (sample_rows Demo.env 0 [(JInt 3, JInt 4); (JInt 1, JInt 2)] 2)
    /\ np_pos st' = 4%nat.
Proof.
  apply (calibrated_output_is_the_samples Demo.env Demo.st_cal 3%nat "spk"
           Demo.batch "xvector" CPU CPU Demo.rows 3
           [(JInt 3, JInt 4); (JInt 1, JInt 2)]).
  - solve_heap_wf.
  - split; [vm_compute; reflexivity | discriminate].
  - split; reflexivity.
  - reflexivity.
  - apply demo_valid_batch; [repeat constructor | reflexivity].
  - exact demo_samplable.
Defined.

(** ** Identifiers, metadata and vectors of the result *)

(** The two paths exclude each other. *)
Lemma masking_not_calibrated E st prof :
  masking_mode E st -> calibrated_mode E st prof -> False.
Proof.
  intros (v & Hv & Hfalse) [Hprof Hne]. rewrite Hprof in Hv.
  injection Hv as <-. destruct prof; [done | discriminate].
Qed.

(** C3: on a non-empty valid batch, either path returns a batch with the
    input's identifiers in the same order and the input's speaker and gender
    lists (the same objects, by reference), around a newly allocated tensor
    holding one freshly computed vector per identifier: on the masking path
    the input vector of the identifier multiplied by the masks drawn for it,
    on the calibrated path the samples drawn for it from the profile's
    ranges. *)
Theorem anonymize_keeps_identifiers_and_metadata
    E st b emb_level se vt dev d rows D :
  heap_wf st ->
  configured st vt dev ->
  available E dev = true ->
  valid_batch st b se d rows D ->
  (masking_mode E st /\ d = dev)
  \/ (exists prof, calibrated_mode E st prof /\ Forall samplable prof) ->
  exists out st' rows',
    anonymize_embeddings E b emb_level st = (Ok out, st')
    /\ anonymized_like st st' se out dev rows'
    /\ (masking_mode E st -> rows' = masked_rows E (torch_pos st) rows)
    /\ (forall prof, calibrated_mode E st prof ->
          rows' = sample_rows E (np_pos st) prof (length (se_identifiers se))).
Proof.
  intros Hwf Hconf Hav Hbatch [[Hmode ->]|(prof & Hmode & Hprof)].
  - destruct (masking_run E st b emb_level se vt dev rows D
                Hwf Hmode Hconf Hav Hbatch)
      as (out & vectors & st' & Hrun & _ & Hfresh & Hout & Hvec).
    exists out, st', (masked_rows E (torch_pos st) rows).
    split; [exact Hrun|]. split; [|split].
    + eexists _, vectors. split; [exact Hout|].
      repeat (split; [reflexivity || exact Hfresh || exact Hvec|]).
      destruct Hbatch as [_ _ Hlen _ _]. unfold masked_rows.
      rewrite length_zip_with, <- Hlen.
      pose proof (Forall2_length _ _ _ (batch_masks_shape E (torch_pos st) rows)).
      lia.
    + reflexivity.
    + intros prof Hcal. destruct (masking_not_calibrated E st prof Hmode Hcal).
  - destruct (calibrated_run_samples E st b emb_level se vt dev d rows D prof
                Hwf Hmode Hconf Hav Hbatch Hprof)
      as (out & vectors & st' & Hrun & _ & Hfresh & Hout & Hvec).
    exists out, st', (sample_rows E (np_pos st) prof (length (se_identifiers se))).
    split; [exact Hrun|]. split; [|split].
    + eexists _, vectors. split; [exact Hout|].
      repeat (split; [reflexivity || exact Hfresh || exact Hvec|]).
      apply length_sample_rows.
    + intros Hmask. destruct (masking_not_calibrated E st prof Hmask Hmode).
    + intros prof' [Hprof' _]. destruct Hmode as [Hv _].
      rewrite Hv in Hprof'. now injection Hprof' as <-.
Qed.

Lemma anonymize_keeps_identifiers_and_metadata_witness :
  exists out st',
    anonymize_embeddings Demo.env 3%nat "utt" Demo.st_cal = (Ok out, st')
    /\ anonymized_like Demo.st_cal st' Demo.batch out CPU
         (sample_rows Demo.env 0 [(JInt 3, JInt 4); (JInt 1, JInt 2)] 2).
Proof.
  assert (Hmode : calibrated_mode Demo.env Demo.st_cal
                    [(JInt 3, JInt 4); (JInt 1, JInt 2)])
    by (split; [vm_compute; reflexivity | discriminate]).
  destruct (anonymize_keeps_identifiers_and_metadata Demo.env Demo.st_cal 3%nat
              "utt" Demo.batch "xvector" CPU CPU Demo.rows 3)
    as (out & st' & rows' & Hrun & Hlike & _ & Hcal).
  - solve_heap_wf.
  - split; reflexivity.
  - reflexivity.
  - apply demo_valid_batch; [repeat constructor | reflexivity].
  - right. exists [(JInt 3, JInt 4); (JInt 1, JInt 2)]. split.
    + exact Hmode.
    + exact demo_samplable.
  - exists out, st'. split; [exact Hrun|].
    rewrite (Hcal _ Hmode) in Hlike. exact Hlike.
Defined.

(** ** How far the masking path moves torch's generator *)

Lemma masked_loop_pos E dev items rows st anon st' :
  heap_wf st ->
  device (self st) = Some dev ->
  available E dev = true ->
  Forall2 (fun item row => vec_at st item.2 dev row) items rows ->
  for_each (masked_vector E) items st = (Ok anon, st') ->
  torch_pos st' = (torch_pos st + sum_list (length <$> rows))%nat.
Proof.
  intros Hwf Hdev Hav Hrows. revert st anon Hwf Hdev Hrows.
  induction items as [|[identifier t] items IH] in rows |- *;
    intros st anon Hwf Hdev Hrows Hloop.
  - apply Forall2_nil_inv_l in Hrows as ->. injection Hloop as _ <-. cbn. lia.
  - apply Forall2_cons_inv_l in Hrows as (row & rows' & Hrow & Hrows & ->).
    cbn [snd] in Hrow.
    destruct (masked_vector_ok E st identifier t dev row Hwf Hdev Hav Hrow)
      as (a & st1 & Hrun & _ & Hpres1 & Hself1 & Hpos1).
    pose proof Hpres1 as (Hwf1 & Hn1 & Hh1).
    cbn [for_each] in Hloop. rewrite (bind_ok _ _ _ _ _ Hrun) in Hloop.
    apply bind_inv_ok in Hloop as (anon' & s2 & Hloop & Hret).
    injection Hret as _ <-.
    rewrite (IH rows' st1 anon' Hwf1); [| | |exact Hloop].
    + rewrite Hpos1. cbn. lia.
    + now rewrite Hself1.
    + eapply Forall2_impl; [exact Hrows|]. intros item r Hr.
      apply (vec_at_agree st); done.
Qed.

Lemma sum_uniform_lengths D (rows : list (list spec_float)) :
  Forall (fun row => length row = D) rows ->
  sum_list (length <$> rows) = (length rows * D)%nat.
Proof. induction 1 as [|row rows Hrow _ IH]; cbn; [done|]. rewrite IH, Hrow. lia. Qed.

(** X16: a masking call on a valid batch of [n] vectors of [D] dimensions
    takes exactly [n * D] words from torch's generator, so the next call
    draws its masks from the words that follow. *)
Theorem masking_advances_torch_generator E st b emb_level se vt dev rows D :
  heap_wf st ->
  masking_mode E st ->
  configured st vt dev ->
  available E dev = true ->
  valid_batch st b se dev rows D ->
  exists out st',
    anonymize_embeddings E b emb_level st = (Ok out, st')
    /\ torch_pos st' = (torch_pos st + length (se_identifiers se) * D)%nat.
Proof.
  intros Hwf Hmode Hconf Hav Hbatch.
  destruct (masking_run E st b emb_level se vt dev rows D
              Hwf Hmode Hconf Hav Hbatch)
    as (out & vectors & st' & Hrun & _).
  exists out, st'. split; [exact Hrun|].
  destruct Hmode as (v & Hv & Hfalse). destruct Hconf as [Hvt Hdev].
  destruct (scaling_ranges E st) as [r st1] eqn:Hsr. cbn in Hv. subst r.
  destruct (scaling_ranges_ok_inv E st v st1 Hsr)
    as (Hh1 & Hn1 & Htp1 & _ & _ & Hdev1 & _ & _).
  assert (Hwf1 : heap_wf st1) by (intros a o; rewrite Hh1, Hn1; apply Hwf).
  apply (valid_batch_agree st st1) in Hbatch; [|done].
  rewrite Hdev in Hdev1.
  destruct (iterate_ok st1 b se dev rows D Hbatch) as (items & Hiter & Hids & Hrows).
  unfold anonymize_embeddings in Hrun. rewrite (bind_ok _ _ _ _ _ Hsr) in Hrun.
  rewrite Hfalse in Hrun.
  pose proof (vb_batch _ _ _ _ _ _ Hbatch) as Hb.
  rewrite (bind_ok _ _ _ _ _ (original_speakers_ok _ _ _ Hb)) in Hrun.
  rewrite (bind_ok _ _ _ _ _ (genders_ok _ _ _ Hb)) in Hrun.
  rewrite (bind_ok _ _ _ _ _ Hiter) in Hrun.
  apply bind_inv_ok in Hrun as (anon & s2 & Hloop & Htail).
  pose proof (masked_loop_pos E dev items rows st1 anon s2 Hwf1 Hdev1 Hav Hrows Hloop)
    as Hpos.
  destruct (keeps_new_batch (fun _ => True) torch_pos ltac:(solve_blind)
              anon (Some emb_level) (se_genders se) (se_original_speakers se)
              s2 Logic.I) as [_ Hk].
  rewrite Htail in Hk. cbn [snd] in Hk.
  rewrite Hk, Hpos, Htp1.
  rewrite (sum_uniform_lengths D rows) by now destruct Hbatch.
  now rewrite (vb_aligned _ _ _ _ _ _ Hbatch).
Qed.

Lemma masking_advances_torch_generator_witness :
  exists out st',
    anonymize_embeddings Demo.env 3%nat "spk" Demo.st_mask = (Ok out, st')
    /\ torch_pos st' = 6%nat.
Proof.
  apply (masking_advances_torch_generator Demo.env Demo.st_mask 3%nat "spk"
           Demo.batch "xvector" CPU Demo.rows 3).
  - solve_heap_wf.
  - exists None. split; reflexivity.
  - split; reflexivity.
  - reflexivity.
  - apply demo_valid_batch; [repeat constructor | reflexivity].
Defined.

(** ** Construction without [in_scale] *)

(** X17: without [in_scale] the constructor drops the statistics path it is
    given: the object is the one built with no path, its [scaling_ranges] is
    [None] in every environment, so the masking path is taken, and no call
    of [anonymize_embeddings] opens a file. *)
Theorem uncalibrated_ignores_stats_path E dev vt mn p st0 b emb_level :
  let st := (RandomAnonymizer_new dev vt mn false p st0).2 in
  st = (RandomAnonymizer_new dev vt mn false None st0).2
  /\ scaling_ranges E st = (Ok None, st)
  /\ masking_mode E st
  /\ reads (anonymize_embeddings E b emb_level st).2 = reads st0.
Proof.
  assert (Heq : RandomAnonymizer_new dev vt mn false p st0
                = RandomAnonymizer_new dev vt mn false None st0) by reflexivity.
  destruct (RandomAnonymizer_new_spec dev vt mn false None st0) as [name Hnew].
  cbv zeta. rewrite Heq, Hnew. cbn [snd].
  set (st := with_self _ st0).
  assert (Hsr : scaling_ranges E st = (Ok None, st))
    by (apply scaling_ranges_cached; reflexivity).
  split; [reflexivity|]. split; [exact Hsr|]. split.
  - exists None. now rewrite Hsr.
  - destruct (keeps_settled_anonymize E b emb_level st eq_refl) as [_ [= _ Hreads]].
    exact Hreads.
Qed.
